(** * cloudinit/distros/helpers.py: HostsConf and ResolvConf

    A shallow embedding of the two line-oriented configuration editors of
    [cloudinit.distros.helpers] and the properties of their parse / mutate /
    render cycle.

    Python 2 byte strings ([str]) are lists of 8-bit characters.  The
    objects are records holding the raw text and the lazily parsed line
    list; methods run in a state-and-exception monad over that record, so
    that what an exception leaves behind in the object is visible. *)

From Stdlib Require Import List Ascii Arith Lia Bool.
From Stdlib Require String DecimalString.
Import ListNotations.
Import String.StringSyntax.
Delimit Scope string_scope with string.

(* ================================================================== *)
(** ** Python byte strings *)
(* ================================================================== *)

Module Py.

Definition str := list ascii.

(** String literals of the development. *)
Definition lit (s : String.string) : str := String.list_ascii_of_string s.
Arguments lit s%_string.

Definition TAB : ascii := "009"%char.
Definition LF  : ascii := "010"%char.
Definition VT  : ascii := "011"%char.
Definition FF  : ascii := "012"%char.
Definition CR  : ascii := "013"%char.
Definition SP  : ascii := " "%char.

Definition str_eq_dec : forall a b : str, {a = b} + {a <> b} :=
  list_eq_dec ascii_dec.

Definition str_eqb (a b : str) : bool :=
  if str_eq_dec a b then true else false.

(** [x in l] on a list of strings. *)
Definition contains (x : str) (l : list str) : bool :=
  if in_dec str_eq_dec x l then true else false.

(** [c.isspace()] for a byte of a [str] (C locale). *)
Definition isspace (c : ascii) : bool :=
  existsb (Ascii.eqb c) [SP; TAB; LF; VT; FF; CR].

(** [s.lstrip()], [s.rstrip()], [s.strip()]. *)
Fixpoint lstrip (s : str) : str :=
  match s with
  | [] => []
  | c :: s' => if isspace c then lstrip s' else s
  end.

Definition rstrip (s : str) : str := rev (lstrip (rev s)).

Definition strip (s : str) : str := rstrip (lstrip s).

(** [text.find(c)] for a one-character [c]: the index of the first
    occurrence; [None] stands for Python's [-1]. *)
Fixpoint find (text : str) (c : ascii) : option nat :=
  match text with
  | [] => None
  | x :: text' =>
      if Ascii.eqb x c then Some 0
      else match find text' c with
           | Some i => Some (S i)
           | None => None
           end
  end.

(** [s.split(None)]: the maximal runs of non-whitespace characters.
    [cur] is the run being read. *)
Fixpoint split_aux (cur : str) (s : str) : list str :=
  match s with
  | [] => match cur with [] => [] | _ => [cur] end
  | c :: s' =>
      if isspace c
      then match cur with
           | [] => split_aux [] s'
           | _ => cur :: split_aux [] s'
           end
      else split_aux (cur ++ [c]) s'
  end.

Definition split (s : str) : list str := split_aux [] s.

(** [s.split(None, 1)]: the first run of non-whitespace characters, then
    what follows the whitespace after it, when anything does. *)
Fixpoint split1_aux (cur : str) (s : str) : list str :=
  match s with
  | [] => match cur with [] => [] | _ => [cur] end
  | c :: s' =>
      if isspace c
      then match cur with
           | [] => split1_aux [] s'
           | _ => match lstrip s' with
                  | [] => [cur]
                  | rest => [cur; rest]
                  end
           end
      else split1_aux (cur ++ [c]) s'
  end.

Definition split1 (s : str) : list str := split1_aux [] s.

(** A word: a string that [split] gives back as it is, not empty and
    without whitespace. *)
Definition no_space (s : str) : bool := forallb (fun c => negb (isspace c)) s.

Definition is_word (w : str) : bool := negb (length w =? 0) && no_space w.

(** [sep.join(l)]. *)
Fixpoint join (sep : str) (l : list str) : str :=
  match l with
  | [] => []
  | [x] => x
  | x :: l' => x ++ sep ++ join sep l'
  end.

(** [s.splitlines()] of a byte string: lines end at LF, CR or CR LF, and
    a final line without a terminator is a line too. *)
Fixpoint splitlines_aux (cur : str) (s : str) : list str :=
  match s with
  | [] => match cur with [] => [] | _ => [cur] end
  | c :: s' =>
      if Ascii.eqb c LF then cur :: splitlines_aux [] s'
      else if Ascii.eqb c CR then
        match s' with
        | c' :: s'' =>
            if Ascii.eqb c' LF then cur :: splitlines_aux [] s''
            else cur :: splitlines_aux [] s'
        | [] => cur :: splitlines_aux [] s'
        end
      else splitlines_aux (cur ++ [c]) s'
  end.

Definition splitlines (s : str) : list str := splitlines_aux [] s.

(** [str(n)] of a non-negative integer. *)
Definition str_of_nat (n : nat) : str :=
  lit (DecimalString.NilZero.string_of_uint (Nat.to_uint n)).

(** [repr(s)] of a byte string, as [%r] formats it. *)
Definition hex_digit (n : nat) : ascii :=
  nth n (lit "0123456789abcdef") "0"%char.

Definition repr_char (quote : ascii) (c : ascii) : str :=
  if Ascii.eqb c quote || Ascii.eqb c "\"%char then ["\"%char; c]
  else if Ascii.eqb c TAB then lit "\t"
  else if Ascii.eqb c LF then lit "\n"
  else if Ascii.eqb c CR then lit "\r"
  else
    let n := nat_of_ascii c in
    if (n <? 32) || (127 <=? n)
    then lit "\x" ++ [hex_digit (n / 16); hex_digit (n mod 16)]
    else [c].

Definition repr (s : str) : str :=
  let sq := "'"%char in
  let dq := "034"%char in
  let quote :=
    if existsb (Ascii.eqb sq) s && negb (existsb (Ascii.eqb dq) s)
    then dq else sq in
  [quote] ++ flat_map (repr_char quote) s ++ [quote].

(** [needle in s] on strings. *)
Fixpoint startswith (s prefix : str) : bool :=
  match prefix, s with
  | [], _ => true
  | p :: prefix', c :: s' => Ascii.eqb c p && startswith s' prefix'
  | _ :: _, [] => false
  end.

Fixpoint substring_of (needle s : str) : bool :=
  startswith s needle ||
  match s with
  | [] => false
  | _ :: s' => substring_of needle s'
  end.

(** A string without LF and CR: what a line of [splitlines] is. *)
Definition no_linebreak (s : str) : bool :=
  forallb (fun c => negb (Ascii.eqb c LF || Ascii.eqb c CR)) s.

End Py.

Import Py.

(* ================================================================== *)
(** ** Exceptions and the method monad *)
(* ================================================================== *)

(** The exceptions the module can raise, with their message.  The parse
    errors of ResolvConf are [IOError]s, the limit errors [ValueError]s;
    [TypeError] is what iterating over an unset [_contents] would raise. *)
Inductive exn : Type :=
| IOError (msg : str)
| ValueError (msg : str)
| TypeError (msg : str).

(** A method of an object of type [S]: it returns or raises, and leaves
    the object in some state either way. *)
Definition M (S A : Type) : Type := S -> (exn + A) * S.

Definition ret {S A} (a : A) : M S A := fun s => (inr a, s).

Definition raise {S A} (e : exn) : M S A := fun s => (inl e, s).

Definition bind {S A B} (c : M S A) (k : A -> M S B) : M S B :=
  fun s =>
    match c s with
    | (inr a, s') => k a s'
    | (inl e, s') => (inl e, s')
    end.

Definition get {S} : M S S := fun s => (inr s, s).

Definition put {S} (s : S) : M S unit := fun _ => (inr tt, s).

Declare Scope py_scope.
Delimit Scope py_scope with py.
Notation "x <- c ;; k" := (bind c (fun x => k))
  (at level 61, c at next level, right associativity) : py_scope.
Notation "c ;; k" := (bind c (fun _ => k))
  (at level 61, right associativity) : py_scope.
Local Open Scope py_scope.

(** [for x in l: body(x)]. *)
Fixpoint for_each {S A} (l : list A) (body : A -> M S unit) : M S unit :=
  match l with
  | [] => ret tt
  | x :: l' => body x ;; for_each l' body
  end.

(** The value a call returned, and the object it left. *)
Definition result {S A} (r : (exn + A) * S) : exn + A := fst r.
Definition after {S A} (r : (exn + A) * S) : S := snd r.

(* ================================================================== *)
(** ** cloudinit.util *)
(* ================================================================== *)

Module util.

(** Modelled from the spec: [util.uniq_list] lives in cloudinit/util.py,
    which is not among the sources.  The spec has the lists deduplicated by
    exact string match with the original relative order preserved and a new
    value last: every value is kept at its first occurrence. *)
Definition uniq_list (in_list : list str) : list str :=
  fold_left
    (fun out_list i => if contains i out_list then out_list
                       else out_list ++ [i])
    in_list [].

End util.

(* ================================================================== *)
(** ** The shared tokenizer *)
(* ================================================================== *)

Definition _chop_comment (text : str) (comment_chars : str) : str * str :=
  let comment_locations := map (find text) comment_chars in
  let comment_locations :=
    flat_map (fun c => match c with Some i => [i] | None => [] end)
             comment_locations in
  match comment_locations with
  | [] => (text, [])
  | c :: cs =>
      let min_comment := fold_left Nat.min cs c in
      (firstn min_comment text, skipn min_comment text)
  end.

(** [c in comment_chars]. *)
Definition is_comment_char (comment_chars : str) (c : ascii) : bool :=
  existsb (Ascii.eqb c) comment_chars.

(* ================================================================== *)
(** ** class HostsConf *)
(* ================================================================== *)

Module HostsConf.

(** The tuples [(line_type, components)] of [_contents]. *)
Inductive entry : Type :=
| Blank (line : str)
| AllComment (line : str)
| Option (pieces : list str) (tail : str).

Record t : Type := mk { _text : str; _contents : option (list entry) }.

Definition __init__ (text : str) : t := mk text None.

(** The entry one pass of the loop of [_parse] appends. *)
Definition entry_of_line (line : str) : entry :=
  if length (strip line) =? 0 then Blank line
  else
    let (head, tail) := _chop_comment (strip line) (lit "#") in
    if length head =? 0 then AllComment line
    else Option (split head) tail.

Definition _parse (contents : str) : list entry :=
  fold_left (fun entries line => entries ++ [entry_of_line line])
            (splitlines contents) [].

Definition parse : M t unit :=
  self <- get ;;
  match _contents self with
  | None => put (mk (_text self) (Some (_parse (_text self))))
  | Some _ => ret tt
  end.

(** Reading [self._contents] to iterate over it. *)
Definition contents : M t (list entry) :=
  self <- get ;;
  match _contents self with
  | Some c => ret c
  | None => raise (TypeError (lit "'NoneType' object is not iterable"))
  end.

Definition set_contents (c : list entry) : M t unit :=
  self <- get ;; put (mk (_text self) (Some c)).

(** [len(pieces) and pieces[0] == ip]. *)
Definition first_is (pieces : list str) (ip : str) : bool :=
  match pieces with
  | [] => false
  | p :: _ => str_eqb p ip
  end.

Definition get_entry (ip : str) : M t (list (list str)) :=
  parse ;;
  c <- contents ;;
  ret (fold_left
         (fun options e =>
            match e with
            | Option pieces _tail =>
                if first_is pieces ip then options ++ [tl pieces]
                else options
            | _ => options
            end)
         c []).

Definition del_entries (ip : str) : M t unit :=
  parse ;;
  c <- contents ;;
  let n_entries :=
    fold_left
      (fun n_entries e =>
         match e with
         | Option pieces _tail =>
             if first_is pieces ip then n_entries
             else if negb (length pieces =? 0) then n_entries ++ [e]
             else n_entries
         | _ => n_entries ++ [e]
         end)
      c [] in
  set_contents n_entries.

Definition add_entry (ip canonical_hostname : str) (aliases : list str)
  : M t unit :=
  parse ;;
  c <- contents ;;
  set_contents (c ++ [Option ([ip; canonical_hostname] ++ aliases) []]).

(** What one pass of the loop of [__str__] writes. *)
Definition write_entry (e : entry) : str :=
  match e with
  | Blank _ => lit "%s" ++ [LF]
  | AllComment line => line ++ [LF]
  | Option pieces tail => join [TAB] pieces ++ tail ++ [LF]
  end.

Definition __str__ : M t str :=
  parse ;;
  c <- contents ;;
  ret (fold_left (fun written e => written ++ write_entry e) c []).

(** *** The vocabulary of the claims *)

(** The line list of a document: the parsed text when nothing is cached
    yet. *)
Definition lines_of (self : t) : list entry :=
  match _contents self with
  | Some c => c
  | None => _parse (_text self)
  end.

Definition is_option (e : entry) : bool :=
  match e with Option _ _ => true | _ => false end.

(** An option line whose first field is [ip]. *)
Definition entry_of_ip (ip : str) (e : entry) : bool :=
  match e with
  | Option (p :: _) _ => str_eqb p ip
  | _ => false
  end.

(** An option line without a field. *)
Definition no_field (e : entry) : bool :=
  match e with
  | Option [] _ => true
  | _ => false
  end.

(** [l1] is [l2] with some elements left out, the others in their order. *)
Inductive subseq {A : Type} : list A -> list A -> Prop :=
| subseq_nil : subseq [] []
| subseq_skip x l1 l2 : subseq l1 l2 -> subseq l1 (x :: l2)
| subseq_keep x l1 l2 : subseq l1 l2 -> subseq (x :: l1) (x :: l2).


(** Fields separated by single tabs: a non-empty run of non-whitespace
    characters, then any number of (tab, non-empty run).  [in_field] tells
    whether the character just read belongs to a field. *)
Fixpoint tab_fields (in_field : bool) (s : str) : bool :=
  match s with
  | [] => in_field
  | c :: s' =>
      if Ascii.eqb c TAB then in_field && tab_fields false s'
      else if isspace c then false
      else tab_fields true s'
  end.

(** The part of a line before its first ['#'], and the rest. *)
Fixpoint before_hash (s : str) : str * str :=
  match s with
  | [] => ([], [])
  | c :: s' =>
      if Ascii.eqb c "#"%char then ([], s)
      else let (h, t) := before_hash s' in (c :: h, t)
  end.

Definition ends_with_space (s : str) : bool :=
  match rev s with
  | [] => false
  | c :: _ => isspace c
  end.

Definition is_blank (line : str) : bool :=
  forallb isspace line.

Definition is_comment (line : str) : bool :=
  match lstrip line with
  | c :: _ => Ascii.eqb c "#"%char
  | [] => false
  end.

(** An option line that is already tab-separated, without leading or
    trailing whitespace. *)
Definition tab_separated (line : str) : bool :=
  let (head, tail) := before_hash line in
  tab_fields false head && negb (ends_with_space tail).

(** Every option line of the text is tab-separated. *)
Definition options_tab_separated (text : str) : bool :=
  forallb (fun line => is_blank line || is_comment line || tab_separated line)
          (splitlines text).

Definition no_blank_line (text : str) : bool :=
  forallb (fun line => negb (is_blank line)) (splitlines text).

(** Every line of the text, the last one too, ends with one LF, and the
    text has no CR. *)
Definition lf_terminated (text : str) : bool :=
  negb (existsb (Ascii.eqb CR) text) && Ascii.eqb (last text LF) LF.

(** The hostnames and aliases the option lines of [ip] list, one list per
    line, in order. *)
Definition names_of (ip : str) (c : list entry) : list (list str) :=
  flat_map (fun e => match e with
                     | Option (p :: names) _ =>
                         if str_eqb p ip then [names] else []
                     | _ => []
                     end) c.

(** The words of a line that stand before its first ['#']. *)
Definition fields_of_line (line : str) : list str :=
  split (fst (_chop_comment (strip line) (lit "#"))).

(** What [__str__] writes for an entry, before the newline. *)
Definition entry_text (e : entry) : str :=
  match e with
  | Blank _ => lit "%s"
  | AllComment line => line
  | Option pieces tail => join [TAB] pieces ++ tail
  end.

(** The line [add_entry] appends. *)
Definition new_entry (ip canonical_hostname : str) (aliases : list str)
  : entry :=
  Option (ip :: canonical_hostname :: aliases) [].

End HostsConf.

(* ================================================================== *)
(** ** class ResolvConf *)
(* ================================================================== *)

Module ResolvConf.

Inductive entry : Type :=
| Blank (line : str)
| AllComment (line : str)
| Option (cfg_opt cfg_value comment_tail : str).

Record t : Type := mk { _text : str; _contents : option (list entry) }.

Definition __init__ (text : str) : t := mk text None.

(** The directives [_parse] accepts. *)
Definition directives : list str :=
  [lit "nameserver"; lit "domain"; lit "search"; lit "sortlist";
   lit "options"].

(** The loop of [_parse]: [i] is the index [enumerate] gives the line. *)
Fixpoint _parse_loop (i : nat) (lines : list str) (entries : list entry)
  : exn + list entry :=
  match lines with
  | [] => inr entries
  | line :: lines' =>
      let sline := strip line in
      match sline with
      | [] => _parse_loop (S i) lines' (entries ++ [Blank line])
      | _ =>
          let (head, tail) := _chop_comment line (lit ";#") in
          if length (strip head) =? 0
          then _parse_loop (S i) lines' (entries ++ [AllComment line])
          else
            match split1 head with
            | [cfg_opt; cfg_values] =>
                if contains cfg_opt directives
                then _parse_loop (S i) lines'
                       (entries ++ [Option cfg_opt cfg_values tail])
                else inl (IOError (lit "Unexpected resolv.conf option "
                                     ++ cfg_opt))
            | _ =>
                inl (IOError (lit "Incorrectly formatted resolv.conf line "
                                ++ str_of_nat (i + 1)))
            end
      end
  end.

Definition _parse (contents : str) : exn + list entry :=
  _parse_loop 0 (splitlines contents) [].

Definition parse : M t unit :=
  self <- get ;;
  match _contents self with
  | None =>
      match _parse (_text self) with
      | inr c => put (mk (_text self) (Some c))
      | inl e => raise e
      end
  | Some _ => ret tt
  end.

(** Reading [self._contents] to iterate over it. *)
Definition contents : M t (list entry) :=
  self <- get ;;
  match _contents self with
  | Some c => ret c
  | None => raise (TypeError (lit "'NoneType' object is not iterable"))
  end.

Definition set_contents (c : list entry) : M t unit :=
  self <- get ;; put (mk (_text self) (Some c)).

Definition _retr_option (opt_name : str) : M t (list str) :=
  c <- contents ;;
  ret (fold_left
         (fun found e =>
            match e with
            | Option cfg_opt cfg_value _comment_tail =>
                if str_eqb cfg_opt opt_name then found ++ [cfg_value]
                else found
            | _ => found
            end)
         c []).

Definition nameservers : M t (list str) :=
  parse ;; _retr_option (lit "nameserver").

Definition local_domain : M t (option str) :=
  parse ;;
  dm <- _retr_option (lit "domain") ;;
  match dm with
  | d :: _ => ret (Some d)
  | [] => ret None
  end.

Definition search_domains : M t (list str) :=
  parse ;;
  current_sds <- _retr_option (lit "search") ;;
  ret (fold_left
         (fun flat_sds sdlist =>
            fold_left
              (fun flat_sds sd =>
                 match sd with
                 | [] => flat_sds
                 | _ => flat_sds ++ [sd]
                 end)
              (split sdlist) flat_sds)
         current_sds []).

(** What one pass of the loop of [__str__] writes. *)
Definition write_entry (e : entry) : str :=
  match e with
  | Blank _ => [LF]
  | AllComment line => line ++ [LF]
  | Option cfg_opt cfg_value comment_tail =>
      let line := cfg_opt ++ lit " " ++ cfg_value in
      let line := if negb (length comment_tail =? 0)
                  then line ++ comment_tail else line in
      line ++ [LF]
  end.

Definition __str__ : M t str :=
  parse ;;
  c <- contents ;;
  ret (fold_left (fun written e => written ++ write_entry e) c []).

(** The inner function [remove_opt] of [_remove_option]. *)
Definition remove_opt (opt_name : str) (item : entry) : bool :=
  match item with
  | Option cfg_opt _cfg_value _comment_tail =>
      if negb (str_eqb cfg_opt opt_name) then false else true
  | _ => false
  end.

Definition _remove_option (opt_name : str) : M t unit :=
  c <- contents ;;
  set_contents
    (fold_left
       (fun new_contents c =>
          if negb (remove_opt opt_name c) then new_contents ++ [c]
          else new_contents)
       c []).

(** [self._contents.append(e)]. *)
Definition append (e : entry) : M t unit :=
  c <- contents ;; set_contents (c ++ [e]).

Definition add_nameserver (ns : str) : M t (list str) :=
  parse ;;
  current_ns <- _retr_option (lit "nameserver") ;;
  let new_ns := util.uniq_list (current_ns ++ [ns]) in
  if length new_ns =? length current_ns then ret current_ns
  else if 3 <=? length current_ns then
    raise (ValueError (lit "Adding " ++ repr ns ++
                       lit " would go beyond the '3' maximum name servers"))
  else
    _remove_option (lit "nameserver") ;;
    for_each new_ns (fun n => append (Option (lit "nameserver") n [])) ;;
    ret new_ns.

Definition add_search_domain (search_domain : str) : M t (list str) :=
  flat_sds <- search_domains ;;
  let new_sds := util.uniq_list (flat_sds ++ [search_domain]) in
  if length flat_sds =? length new_sds then ret new_sds
  else if 6 <=? length flat_sds then
    raise (ValueError (lit "Adding " ++ repr search_domain ++
                       lit " would go beyond the '6' maximum search domains"))
  else
    let s_list := join (lit " ") new_sds in
    if 256 <? length s_list then
      raise (ValueError
               (lit "Adding " ++ repr search_domain ++
                lit " would go beyond the 256 maximum search list character limit"))
    else
      _remove_option (lit "search") ;;
      append (Option (lit "search") s_list []) ;;
      ret flat_sds.

Definition set_local_domain (domain : str) : M t str :=
  parse ;;
  _remove_option (lit "domain") ;;
  append (Option (lit "domain") domain []) ;;
  ret domain.

(** *** The vocabulary of the claims *)

(** The limit errors of the two add operations. *)
Definition LimitExceeded (e : exn) : Prop :=
  match e with ValueError _ => True | _ => False end.

(** The parse errors. *)
Definition FormatError (e : exn) : Prop :=
  match e with IOError _ => True | _ => False end.


(** What stands before the comment of a line. *)
Definition head_of (line : str) : str :=
  fst (_chop_comment line (lit ";#")).

(** The keyword of a line: the first whitespace-separated word of what
    stands before the comment. *)
Definition keyword (line : str) : option str :=
  hd_error (split (head_of line)).

(** A line that is neither blank nor a comment and whose keyword is not a
    directive. *)
Definition unexpected_line (line : str) : bool :=
  match keyword line with
  | Some kw => negb (contains kw directives)
  | None => false
  end.

(** The two reports of [_parse]. *)
Definition incorrectly_formatted (lineno : nat) : exn :=
  IOError (lit "Incorrectly formatted resolv.conf line " ++ str_of_nat lineno).

Definition unexpected_option (cfg_opt : str) : exn :=
  IOError (lit "Unexpected resolv.conf option " ++ cfg_opt).

Definition message (e : exn) : str :=
  match e with IOError m | ValueError m | TypeError m => m end.

(** The line list of a document: the parsed text when nothing is cached
    yet. *)
Definition lines_of (self : t) : exn + list entry :=
  match _contents self with
  | Some c => inr c
  | None => _parse (_text self)
  end.

(** The values of the [opt_name] lines of a line list, in order. *)
Definition option_values (opt_name : str) (c : list entry) : list str :=
  flat_map (fun e => match e with
                     | Option cfg_opt cfg_value _ =>
                         if str_eqb cfg_opt opt_name then [cfg_value] else []
                     | _ => []
                     end) c.

(** The [opt_name] lines, and the option lines [add_nameserver] and
    [add_search_domain] write. *)
Definition is_option_of (opt_name : str) (e : entry) : bool :=
  match e with
  | Option cfg_opt _ _ => str_eqb cfg_opt opt_name
  | _ => false
  end.

Definition nameserver_line (n : str) : entry :=
  Option (lit "nameserver") n [].

Definition search_line (domains : list str) : entry :=
  Option (lit "search") (join (lit " ") domains) [].

(** The search domains of a line list: the words of its search lines. *)
Definition flat_domains (c : list entry) : list str :=
  concat (map split (option_values (lit "search") c)).

(** The lines that are not [opt_name] options, in order. *)
Definition without (opt_name : str) (c : list entry) : list entry :=
  filter (fun e => negb (is_option_of opt_name e)) c.

(** What one pass of the loop of [_parse] does with a line: the entry
    it appends, or the error it raises. *)
Definition line_entry (i : nat) (line : str) : exn + entry :=
  match strip line with
  | [] => inr (Blank line)
  | _ =>
      let (head, tail) := _chop_comment line (lit ";#") in
      if length (strip head) =? 0 then inr (AllComment line)
      else
        match split1 head with
        | [cfg_opt; cfg_values] =>
            if contains cfg_opt directives
            then inr (Option cfg_opt cfg_values tail)
            else inl (unexpected_option cfg_opt)
        | _ => inl (incorrectly_formatted (i + 1))
        end
  end.

(** A line [_parse] accepts: blank, a comment, or a directive with a
    value. *)
Definition accepted_line (line : str) : bool :=
  match keyword line with
  | None => true
  | Some kw =>
      match split1 (head_of line) with
      | [_; _] => contains kw directives
      | _ => false
      end
  end.

Definition starts_with_comment_char (s : str) : bool :=
  match s with
  | [] => true
  | c :: _ => is_comment_char (lit ";#") c
  end.

(** What parsing guarantees of an entry: a blank line is blank; a comment
    line has a comment character as its first character that is not
    whitespace; an option has a directive as keyword, a value that is not
    empty and starts with a character that is not whitespace, no comment
    character in the keyword or the value, and a comment tail that is empty
    or starts with a comment character. *)
Definition well_formed (e : entry) : bool :=
  match e with
  | Blank line => forallb isspace line
  | AllComment line =>
      match lstrip line with
      | c :: _ => is_comment_char (lit ";#") c
      | [] => false
      end
  | Option cfg_opt cfg_value comment_tail =>
      contains cfg_opt directives
      && negb (existsb (is_comment_char (lit ";#")) cfg_value)
      && match cfg_value with
         | c :: _ => negb (isspace c)
         | [] => false
         end
      && starts_with_comment_char comment_tail
  end.

(** What [__str__] writes for an entry, before the newline. *)
Definition entry_text (e : entry) : str :=
  match e with
  | Blank _ => []
  | AllComment line => line
  | Option cfg_opt cfg_value comment_tail =>
      cfg_opt ++ lit " " ++ cfg_value ++ comment_tail
  end.

(** The line [local_domain = domain] writes. *)
Definition domain_line (domain : str) : entry :=
  Option (lit "domain") domain [].

(** A successful outcome. *)
Definition succeeds {A} (r : exn + A) : bool :=
  match r with inr _ => true | inl _ => false end.

End ResolvConf.

(* ================================================================== *)
(** ** Sample texts *)
(* ================================================================== *)

Module Sample.

(** A hosts file of one line that is all blanks. *)
Definition hosts_blank : str := [SP; LF].

(** A tab-separated hosts entry without a final newline. *)
Definition hosts_unterminated : str := lit "a" ++ [TAB] ++ lit "b".

(** A hosts file with an entry carrying a comment, and a comment line. *)
Definition hosts_file : str :=
  lit "127.0.0.1" ++ [TAB] ++ lit "localhost" ++ [TAB] ++ lit "lh# loopback"
  ++ [LF] ++ lit "  # managed by hand " ++ [LF]
  ++ lit "10.0.0.5" ++ [TAB] ++ lit "myhost" ++ [LF].

(** A resolver file that lists one nameserver twice. *)
Definition resolv_dup_ns : str :=
  lit "nameserver 1.1.1.1" ++ [LF] ++ lit "nameserver 1.1.1.1" ++ [LF]
  ++ lit "nameserver 2.2.2.2" ++ [LF].

(** A resolver file that lists one search domain twice, and a domain of
    256 characters. *)
Definition resolv_dup_search : str := lit "search lan lan" ++ [LF].

Definition long_domain : str := repeat "b"%char 256.

(** A resolver file that lists one search domain three times. *)
Definition resolv_triple_search : str := lit "search lan lan lan" ++ [LF].

(** A resolver file whose nameserver line carries a comment and stands
    before another line. *)
Definition resolv_commented_ns : str :=
  lit "nameserver 1.1.1.1#primary" ++ [LF] ++ lit "domain example.org"
  ++ [LF].

(** A resolver file with a directive that does not exist. *)
Definition resolv_unexpected : str := lit "foo bar".

(** A resolver file with comments, two nameservers and a search list. *)
Definition resolv_file : str :=
  lit "# resolver" ++ [LF] ++ lit "nameserver 1.1.1.1 # primary" ++ [LF]
  ++ lit "search lan" ++ [LF] ++ lit "nameserver 8.8.8.8" ++ [LF].

(** A resolver file with three nameservers. *)
Definition resolv_three_ns : str :=
  lit "nameserver 1.1.1.1" ++ [LF] ++ lit "nameserver 8.8.8.8" ++ [LF]
  ++ lit "domain example.org" ++ [LF] ++ lit "nameserver 9.9.9.9" ++ [LF].

(** A resolver file with six search domains. *)
Definition resolv_six_search : str :=
  lit "search a b c" ++ [LF] ++ lit "search d e f" ++ [LF].

End Sample.

(* ================================================================== *)
(** ** Facts about the string primitives *)
(* ================================================================== *)

Module PyFacts.

Lemma str_eqb_eq (a b : str) : str_eqb a b = true <-> a = b.
Proof.
  unfold str_eqb. destruct (str_eq_dec a b); split; congruence.
Qed.

Lemma str_eqb_refl (a : str) : str_eqb a a = true.
Proof. now apply str_eqb_eq. Qed.

Lemma contains_In (x : str) (l : list str) : contains x l = true <-> In x l.
Proof.
  unfold contains. destruct (in_dec str_eq_dec x l); split; congruence.
Qed.

Lemma contains_not_In (x : str) (l : list str) :
  contains x l = false <-> ~ In x l.
Proof.
  unfold contains. destruct (in_dec str_eq_dec x l); split; congruence.
Qed.

(** *** strip *)

Lemma lstrip_hd (s : str) (c : ascii) (r : str) :
  lstrip s = c :: r -> isspace c = false.
Proof.
  induction s as [|x s IH]; simpl; [discriminate|].
  destruct (isspace x) eqn:E; auto.
  intros [= -> _]. exact E.
Qed.

Lemma lstrip_nil (s : str) : lstrip s = [] <-> forallb isspace s = true.
Proof.
  induction s as [|x s IH]; simpl; [tauto|].
  destruct (isspace x); simpl; [exact IH|].
  split; discriminate.
Qed.

Lemma lstrip_suffix (s : str) :
  exists w, s = w ++ lstrip s /\ forallb isspace w = true.
Proof.
  induction s as [|x s [w [Hs Hw]]]; simpl.
  - now exists [].
  - destruct (isspace x) eqn:E.
    + exists (x :: w). simpl. rewrite E, Hw. split; [congruence|reflexivity].
    + now exists [].
Qed.

Lemma lstrip_id (c : ascii) (s : str) :
  isspace c = false -> lstrip (c :: s) = c :: s.
Proof. intros H. simpl. now rewrite H. Qed.

Lemma forallb_rev {A} (f : A -> bool) (l : list A) :
  forallb f (rev l) = forallb f l.
Proof.
  induction l as [|x l IH]; simpl; [reflexivity|].
  rewrite forallb_app, IH. simpl. rewrite andb_true_r. apply andb_comm.
Qed.

Lemma rstrip_prefix (s : str) :
  exists w, s = rstrip s ++ w /\ forallb isspace w = true.
Proof.
  unfold rstrip. destruct (lstrip_suffix (rev s)) as [w [Hs Hw]].
  exists (rev w). split.
  - rewrite <- rev_app_distr, <- Hs. symmetry. apply rev_involutive.
  - now rewrite forallb_rev.
Qed.

Lemma rstrip_nil (s : str) : rstrip s = [] <-> forallb isspace s = true.
Proof.
  unfold rstrip. rewrite <- (forallb_rev isspace s), <- lstrip_nil.
  split; intros H.
  - apply (f_equal (@rev ascii)) in H. now rewrite rev_involutive in H.
  - now rewrite H.
Qed.

(** A string is blank for [strip] exactly when all its characters are
    whitespace. *)
Lemma strip_nil (s : str) : strip s = [] <-> forallb isspace s = true.
Proof.
  unfold strip. rewrite rstrip_nil.
  destruct (lstrip_suffix s) as [w [Hs Hw]].
  split; intros H.
  - rewrite Hs, forallb_app, Hw, H. reflexivity.
  - rewrite Hs, forallb_app in H. now apply andb_true_iff in H.
Qed.

(** What [strip] leaves starts with a character that is not whitespace. *)
Lemma strip_hd (s : str) (c : ascii) (r : str) :
  strip s = c :: r -> isspace c = false.
Proof.
  unfold strip. intros H.
  destruct (rstrip_prefix (lstrip s)) as [w [Hs _]].
  rewrite H in Hs. simpl in Hs. now apply lstrip_hd in Hs.
Qed.

(** [strip] changes nothing when the first and last characters are not
    whitespace. *)
Lemma strip_id (s : str) (c : ascii) (r : str) :
  s = c :: r -> isspace c = false ->
  (forall x l, rev s = x :: l -> isspace x = false) ->
  strip s = s.
Proof.
  intros -> Hc Hlast. unfold strip. rewrite (lstrip_id _ _ Hc).
  unfold rstrip. destruct (rev (c :: r)) as [|x l] eqn:E.
  - apply (f_equal (@rev ascii)) in E. now rewrite rev_involutive in E.
  - rewrite (lstrip_id _ _ (Hlast x l eq_refl)), <- E. apply rev_involutive.
Qed.

(** [rstrip] keeps the first character of a string that starts with a
    character that is not whitespace. *)
Lemma rstrip_keeps_hd (c : ascii) (r : str) :
  isspace c = false -> exists r', rstrip (c :: r) = c :: r'.
Proof.
  intros Hc.
  destruct (rstrip (c :: r)) as [|x r'] eqn:E.
  - apply rstrip_nil in E. simpl in E. now rewrite Hc in E.
  - destruct (rstrip_prefix (c :: r)) as [w [Hs _]].
    rewrite E in Hs. simpl in Hs. injection Hs as -> _. now exists r'.
Qed.

(** *** split *)

Lemma split_aux_cur (cur s : str) : cur <> [] -> split_aux cur s <> [].
Proof.
  revert cur. induction s as [|c s IH]; intros cur Hcur; simpl.
  - destruct cur; congruence.
  - destruct (isspace c).
    + destruct cur; congruence.
    + apply IH. destruct cur; discriminate.
Qed.

Lemma split_hd_nonspace (c : ascii) (s : str) :
  isspace c = false -> split (c :: s) <> [].
Proof.
  intros H. unfold split. simpl. rewrite H. now apply split_aux_cur.
Qed.

Lemma no_space_app (a b : str) :
  no_space (a ++ b) = no_space a && no_space b.
Proof. apply forallb_app. Qed.

(** Every string [split] returns is a word. *)
Lemma split_aux_words (s cur : str) :
  no_space cur = true ->
  Forall (fun w => is_word w = true) (split_aux cur s).
Proof.
  revert cur. induction s as [|c s IH]; intros cur Hcur; simpl.
  - destruct cur as [|x cur]; constructor; [|constructor].
    unfold is_word. now rewrite Hcur.
  - destruct (isspace c) eqn:E.
    + destruct cur as [|x cur]; [now apply IH|].
      constructor; [|now apply IH].
      unfold is_word. now rewrite Hcur.
    + apply IH. rewrite no_space_app, Hcur. simpl. now rewrite E.
Qed.

Lemma split_words (s : str) : Forall (fun w => is_word w = true) (split s).
Proof. now apply split_aux_words. Qed.

Lemma split_aux_app (t rest cur : str) :
  no_space t = true -> split_aux cur (t ++ rest) = split_aux (cur ++ t) rest.
Proof.
  revert cur. induction t as [|c t IH]; intros cur Ht; simpl.
  - now rewrite app_nil_r.
  - simpl in Ht. apply andb_true_iff in Ht as [Hc Ht].
    apply negb_true_iff in Hc. rewrite Hc, (IH _ Ht), <- app_assoc.
    reflexivity.
Qed.

Lemma is_word_inv (w : str) :
  is_word w = true -> w <> [] /\ no_space w = true.
Proof.
  unfold is_word. intros H. apply andb_true_iff in H as [H1 H2].
  split; [|exact H2]. destruct w; [discriminate|congruence].
Qed.

(** Splitting the words joined by one whitespace character gives the
    words back. *)
Lemma split_join (c : ascii) (ws : list str) :
  isspace c = true -> Forall (fun w => is_word w = true) ws ->
  split (join [c] ws) = ws.
Proof.
  intros Hc. unfold split.
  induction ws as [|w ws IH]; intros Hws; [reflexivity|].
  inversion Hws as [|? ? Hw Hws']; subst.
  apply is_word_inv in Hw as [Hne Hns].
  destruct ws as [|w' ws].
  - pose proof (split_aux_app w [] [] Hns) as E.
    rewrite app_nil_r in E. simpl in *. rewrite E.
    destruct w; congruence.
  - change (join [c] (w :: w' :: ws)) with (w ++ [c] ++ join [c] (w' :: ws)).
    rewrite (split_aux_app _ _ _ Hns). cbn [app split_aux]. rewrite Hc.
    destruct w; [congruence|]. now rewrite (IH Hws').
Qed.

(** *** join on tab-separated fields *)

Lemma tab_fields_split_ne (s : str) :
  HostsConf.tab_fields false s = true -> split_aux [] s <> [].
Proof.
  destruct s as [|c s]; simpl; [discriminate|].
  destruct (Ascii.eqb c TAB); [discriminate|].
  destruct (isspace c); [discriminate|].
  intros _. now apply split_aux_cur.
Qed.

Lemma join_split_aux (s cur : str) (in_field : bool) :
  (in_field = true <-> cur <> []) ->
  HostsConf.tab_fields in_field s = true ->
  join [TAB] (split_aux cur s) = cur ++ s.
Proof.
  revert cur in_field.
  induction s as [|c s IH]; intros cur b Hb H; simpl in *.
  - subst b. destruct cur as [|x cur]; [now destruct (proj1 Hb eq_refl)|].
    now rewrite app_nil_r.
  - destruct (Ascii.eqb_spec c TAB) as [->|Hc].
    + apply andb_true_iff in H as [-> H].
      change (isspace TAB) with true. cbv iota.
      destruct cur as [|x cur]; [now destruct (proj1 Hb eq_refl)|].
      pose proof (tab_fields_split_ne _ H) as Hne.
      rewrite <- (IH [] false) at 2; [|split; congruence|exact H].
      destruct (split_aux [] s); [congruence|reflexivity].
    + destruct (isspace c); [discriminate|].
      rewrite (IH (cur ++ [c]) true); [now rewrite <- app_assoc| |exact H].
      split; [destruct cur; discriminate|reflexivity].
Qed.

(** Joining with tabs the fields of a tab-separated string gives the
    string back. *)
Lemma join_split_tab (s : str) :
  HostsConf.tab_fields false s = true -> join [TAB] (split s) = s.
Proof.
  intros H. unfold split.
  now rewrite (join_split_aux s [] false); [|split; congruence|].
Qed.

Lemma tab_fields_last (s : str) (in_field : bool) :
  HostsConf.tab_fields in_field s = true ->
  (s = [] /\ in_field = true) \/
  (exists l x, s = l ++ [x] /\ isspace x = false).
Proof.
  revert in_field. induction s as [|c s IH]; intros b H; simpl in H.
  - now left.
  - right. destruct (Ascii.eqb c TAB).
    + apply andb_true_iff in H as [_ H].
      destruct (IH _ H) as [[_ ?]|[l [x [-> Hx]]]]; [discriminate|].
      now exists (c :: l), x.
    + destruct (isspace c) eqn:E; [discriminate|].
      destruct (IH _ H) as [[-> _]|[l [x [-> Hx]]]].
      * now exists [], c.
      * now exists (c :: l), x.
Qed.

Lemma tab_fields_hd (s : str) :
  HostsConf.tab_fields false s = true ->
  exists c r, s = c :: r /\ isspace c = false.
Proof.
  destruct s as [|c s]; simpl; [discriminate|].
  destruct (Ascii.eqb c TAB); [discriminate|].
  destruct (isspace c) eqn:E; [discriminate|].
  intros _. now exists c, s.
Qed.

(** *** the tokenizer *)

Lemma before_hash_find (s : str) :
  HostsConf.before_hash s =
  match find s "#"%char with
  | Some i => (firstn i s, skipn i s)
  | None => (s, [])
  end.
Proof.
  induction s as [|x s IH]; simpl; [reflexivity|].
  destruct (Ascii.eqb x "#"); [reflexivity|].
  rewrite IH. now destruct (find s "#").
Qed.

(** With ['#'] alone as comment character the tokenizer cuts the line at
    its first ['#']. *)
Lemma chop_hash (s : str) :
  _chop_comment s (lit "#") = HostsConf.before_hash s.
Proof.
  rewrite before_hash_find. unfold _chop_comment. simpl.
  now destruct (find s "#").
Qed.

Lemma before_hash_app (s h t : str) :
  HostsConf.before_hash s = (h, t) -> s = h ++ t.
Proof.
  revert h t. induction s as [|x s IH]; intros h t; simpl.
  - now intros [= <- <-].
  - destruct (Ascii.eqb x "#"); [now intros [= <- <-]|].
    destruct (HostsConf.before_hash s) as [h' t'].
    intros [= <- <-]. simpl. now rewrite (IH h' t' eq_refl).
Qed.

Lemma chop_app (text chars h t : str) :
  _chop_comment text chars = (h, t) -> text = h ++ t.
Proof.
  unfold _chop_comment. destruct (flat_map _ _) as [|c cs].
  - intros [= <- <-]. now rewrite app_nil_r.
  - intros [= <- <-]. symmetry. apply firstn_skipn.
Qed.

(** *** split with one cut *)

Lemma split_aux_nil (s : str) :
  split_aux [] s = [] <-> forallb isspace s = true.
Proof.
  induction s as [|c s IH]; simpl; [tauto|].
  destruct (isspace c); simpl; [exact IH|].
  split; [|discriminate]. intros H. now destruct (split_aux_cur [c] s).
Qed.

Lemma split1_hd (s cur : str) :
  hd_error (split1_aux cur s) = hd_error (split_aux cur s).
Proof.
  revert cur. induction s as [|c s IH]; intros cur; simpl; [reflexivity|].
  destruct (isspace c); [|apply IH].
  destruct cur as [|x cur]; [apply IH|]. now destruct (lstrip s).
Qed.

Lemma split1_length (s cur : str) : length (split1_aux cur s) <= 2.
Proof.
  revert cur. induction s as [|c s IH]; intros cur; simpl.
  - destruct cur; simpl; lia.
  - destruct (isspace c); [|apply IH].
    destruct cur as [|x cur]; [apply IH|]. destruct (lstrip s); simpl; lia.
Qed.

(** The first word of a string that is not blank is the first of the one
    or two parts [split(None, 1)] returns. *)
Lemma split1_shape (s : str) (kw : str) :
  hd_error (split s) = Some kw ->
  split1 s = [kw] \/ exists v, split1 s = [kw; v].
Proof.
  intros H. unfold split, split1 in *. rewrite <- split1_hd in H.
  pose proof (split1_length s []) as Hlen.
  destruct (split1_aux [] s) as [|a [|b [|c l]]]; simpl in *;
    try discriminate; try lia; injection H as ->.
  - now left.
  - right. now exists b.
Qed.

(** *** splitlines *)

Lemma splitlines_aux_lf (s cur : str) :
  existsb (Ascii.eqb CR) s = false -> last s LF = LF ->
  (s = [] -> cur = []) ->
  concat (map (fun l => l ++ [LF]) (splitlines_aux cur s)) = cur ++ s.
Proof.
  revert cur. induction s as [|c s IH]; intros cur Hcr Hlast Hnil.
  - now rewrite (Hnil eq_refl).
  - cbn [existsb] in Hcr. apply orb_false_iff in Hcr as [Hc Hcr].
    cbn [splitlines_aux].
    destruct (Ascii.eqb_spec c LF) as [->|Hlf].
    + cbn [map concat]. rewrite (IH [] Hcr); [now rewrite <- app_assoc| |auto].
      destruct s; [reflexivity|exact Hlast].
    + rewrite Ascii.eqb_sym in Hc. rewrite Hc.
      destruct s as [|c' s]; [simpl in Hlast; congruence|].
      rewrite (IH (cur ++ [c]) Hcr); [now rewrite <- app_assoc|exact Hlast|].
      discriminate.
Qed.

(** A text whose lines all end with LF is the concatenation of its lines,
    each followed by LF. *)
Lemma splitlines_lf (text : str) :
  HostsConf.lf_terminated text = true ->
  concat (map (fun l => l ++ [LF]) (splitlines text)) = text.
Proof.
  unfold HostsConf.lf_terminated. intros H.
  apply andb_true_iff in H as [Hcr Hlast].
  apply negb_true_iff in Hcr.
  destruct (Ascii.eqb_spec (last text LF) LF) as [E|]; [|discriminate].
  unfold splitlines. now rewrite splitlines_aux_lf.
Qed.

End PyFacts.

(* ================================================================== *)
(** ** Loops that build a list *)
(* ================================================================== *)

Module LoopFacts.

Lemma fold_snoc_map {A B} (f : A -> B) (l : list A) (init : list B) :
  fold_left (fun acc x => acc ++ [f x]) l init = init ++ map f l.
Proof.
  revert init. induction l as [|x l IH]; intros init; simpl.
  - now rewrite app_nil_r.
  - now rewrite IH, <- app_assoc.
Qed.

Lemma fold_app_concat {A B} (f : A -> list B) (l : list A) (init : list B) :
  fold_left (fun acc x => acc ++ f x) l init = init ++ concat (map f l).
Proof.
  revert init. induction l as [|x l IH]; intros init; simpl.
  - now rewrite app_nil_r.
  - now rewrite IH, <- app_assoc.
Qed.

Lemma fold_snoc_filter {A} (keep : A -> bool) (l init : list A) :
  fold_left (fun acc x => if keep x then acc ++ [x] else acc) l init
  = init ++ filter keep l.
Proof.
  revert init. induction l as [|x l IH]; intros init; simpl.
  - now rewrite app_nil_r.
  - rewrite IH. destruct (keep x); [now rewrite <- app_assoc|reflexivity].
Qed.

Lemma fold_ext {A B} (f g : B -> A -> B) (l : list A) (init : B) :
  (forall acc x, f acc x = g acc x) ->
  fold_left f l init = fold_left g l init.
Proof.
  intros H. revert init. induction l as [|x l IH]; intros init; simpl.
  - reflexivity.
  - now rewrite H, IH.
Qed.

Lemma subseq_filter {A} (keep : A -> bool) (l : list A) :
  HostsConf.subseq (filter keep l) l.
Proof.
  induction l as [|x l IH]; simpl; [constructor|].
  destruct (keep x); now constructor.
Qed.

Lemma filter_filter_comm {A} (f g : A -> bool) (l : list A) :
  filter f (filter g l) = filter g (filter f l).
Proof.
  induction l as [|x l IH]; simpl; [reflexivity|].
  destruct (f x) eqn:Ef, (g x) eqn:Eg; simpl; rewrite ?Ef, ?Eg, IH;
    reflexivity.
Qed.

Lemma filter_all {A} (f : A -> bool) (l : list A) :
  (forall x, In x l -> f x = true) -> filter f l = l.
Proof.
  induction l as [|x l IH]; intros H; simpl; [reflexivity|].
  rewrite (H x (or_introl eq_refl)), IH; [reflexivity|].
  intros y Hy. apply H. now right.
Qed.

End LoopFacts.

(* ================================================================== *)
(** ** HostsConf: parse, del_entries, render *)
(* ================================================================== *)

Module HostsConfSpec.

Import PyFacts LoopFacts HostsConf.

(** *** How the methods run *)

Lemma _parse_map (text : str) :
  _parse text = map entry_of_line (splitlines text).
Proof. unfold _parse. now rewrite fold_snoc_map. Qed.

Lemma hosts_parse_run (self : t) :
  parse self = (inr tt, mk (_text self) (Some (lines_of self))).
Proof.
  destruct self as [text [c|]]; reflexivity.
Qed.

Lemma str_run (self : t) :
  __str__ self = (inr (concat (map write_entry (lines_of self))),
                  mk (_text self) (Some (lines_of self))).
Proof.
  unfold __str__, bind. rewrite hosts_parse_run. cbn.
  now rewrite fold_app_concat.
Qed.

Lemma del_entries_run (self : t) (ip : str) :
  del_entries ip self =
  (inr tt,
   mk (_text self)
      (Some (filter (fun e => negb (entry_of_ip ip e || no_field e))
                    (lines_of self)))).
Proof.
  unfold del_entries, bind. rewrite hosts_parse_run. cbn. unfold put.
  rewrite <- (app_nil_l (filter _ _)), <- fold_snoc_filter.
  do 3 f_equal. apply fold_ext. intros acc [line|line|pieces tail];
    try reflexivity.
  destruct pieces as [|p pieces]; simpl; [reflexivity|].
  rewrite orb_false_r. now destruct (str_eqb p ip).
Qed.

(** *** One line through [_parse] and [__str__] *)

Lemma entry_of_blank (line : str) :
  is_blank line = true -> entry_of_line line = Blank line.
Proof.
  intros H. unfold entry_of_line.
  now rewrite (proj2 (strip_nil line) H).
Qed.

(** A blank line is written as the format string, not as the line. *)
Lemma blank_line_written (line : str) :
  is_blank line = true ->
  write_entry (entry_of_line line) = lit "%s" ++ [LF].
Proof. intros H. now rewrite (entry_of_blank _ H). Qed.

Lemma entry_of_comment (line : str) :
  is_comment line = true -> entry_of_line line = AllComment line.
Proof.
  unfold is_comment, entry_of_line, strip. intros H.
  destruct (lstrip line) as [|c r] eqn:E; [discriminate|].
  apply Ascii.eqb_eq in H. subst c.
  destruct (rstrip_keeps_hd "#" r eq_refl) as [r' ->].
  now rewrite chop_hash.
Qed.

Lemma tab_separated_strip (line : str) :
  tab_separated line = true -> strip line = line.
Proof.
  unfold tab_separated. destruct (before_hash line) as [head tail] eqn:E.
  intros H. apply andb_true_iff in H as [Hh Ht].
  apply negb_true_iff in Ht.
  pose proof (before_hash_app _ _ _ E) as ->.
  destruct (tab_fields_hd _ Hh) as [c [r [Hcr Hc]]].
  apply (strip_id _ c (r ++ tail)); [now rewrite Hcr|exact Hc|].
  intros x l. rewrite rev_app_distr.
  unfold ends_with_space in Ht.
  destruct (rev tail) as [|y l'] eqn:Er.
  - simpl. destruct (tab_fields_last _ _ Hh) as [[? _]|[l0 [x0 [E0 Hx0]]]];
      [congruence|].
    rewrite E0, rev_app_distr. simpl. now intros [= <- _].
  - simpl. now intros [= <- _].
Qed.

Lemma entry_of_tab_separated (line : str) :
  tab_separated line = true ->
  write_entry (entry_of_line line) = line ++ [LF].
Proof.
  intros H. unfold entry_of_line.
  rewrite (tab_separated_strip _ H), chop_hash.
  unfold tab_separated in H.
  destruct (before_hash line) as [head tail] eqn:E.
  apply andb_true_iff in H as [Hh _].
  pose proof (before_hash_app _ _ _ E) as ->.
  destruct (tab_fields_hd _ Hh) as [c [r [-> Hc]]].
  cbn [length Nat.eqb app write_entry].
  now rewrite (join_split_tab _ Hh), <- app_assoc.
Qed.

(** A line that is not blank and is a comment or a tab-separated option
    line is written back as it was read. *)
Lemma line_roundtrip (line : str) :
  is_blank line = false ->
  is_comment line || tab_separated line = true ->
  write_entry (entry_of_line line) = line ++ [LF].
Proof.
  intros _ H. apply orb_true_iff in H as [H|H].
  - now rewrite (entry_of_comment _ H).
  - now apply entry_of_tab_separated.
Qed.

(** The entry of a line is never an option without fields. *)
Lemma entry_of_line_field (line : str) : no_field (entry_of_line line) = false.
Proof.
  unfold entry_of_line.
  destruct (strip line) as [|c r] eqn:E; [reflexivity|].
  pose proof (strip_hd _ _ _ E) as Hc.
  rewrite chop_hash. cbn [length Nat.eqb before_hash].
  destruct (Ascii.eqb c "#"); [reflexivity|].
  destruct (before_hash r) as [h t]. cbn [length Nat.eqb].
  destruct (split (c :: h)) eqn:Es; [|reflexivity].
  now destruct (split_hd_nonspace c h Hc).
Qed.

(** *** Rendering *)

(** C1 (the code departs from the claim).  Rendering a Blank record should
    emit the original line text and a newline.  [__str__] writes the format
    string ["%s\n"] without its argument, so every Blank record is rendered
    as a percent sign, the letter s and a newline, whatever the line was:
    here on the text of one space and a newline. *)
Theorem C1_blank_rendered_as_format_string :
  _parse Sample.hosts_blank = [Blank [SP]] /\
  result (__str__ (__init__ Sample.hosts_blank)) = inr (lit "%s" ++ [LF]) /\
  (forall line, write_entry (Blank line) = lit "%s" ++ [LF]) /\
  lit "%s" ++ [LF] <> [SP] ++ [LF].
Proof.
  repeat split; try reflexivity. discriminate.
Qed.

(** C2, as stated, fails on a text without a final newline: its only line
    is tab-separated, and rendering adds the newline the text lacks. *)
Lemma C2_counterexample :
  options_tab_separated Sample.hosts_unterminated = true /\
  result (__str__ (__init__ Sample.hosts_unterminated))
  <> inr Sample.hosts_unterminated.
Proof.
  split; [reflexivity|]. vm_compute. discriminate.
Qed.

(** C2 (amended).  For every text whose lines all end with a newline
    (the last one too, and without carriage returns), that has no blank
    line, and whose option lines are tab-separated without leading or
    trailing whitespace, parsing and rendering without a mutation gives
    the text back. *)
Theorem C2_roundtrip (text : str) :
  options_tab_separated text = true ->
  no_blank_line text = true ->
  lf_terminated text = true ->
  result (__str__ (__init__ text)) = inr text.
Proof.
  intros Hopt Hnb Hlf. rewrite str_run.
  unfold result, lines_of, __init__. cbn [fst _contents _text]. f_equal.
  rewrite _parse_map, map_map.
  rewrite <- (splitlines_lf _ Hlf) at 2. f_equal.
  apply map_ext_in. intros line Hin.
  unfold options_tab_separated in Hopt. unfold no_blank_line in Hnb.
  rewrite forallb_forall in Hopt, Hnb.
  specialize (Hopt _ Hin). specialize (Hnb _ Hin).
  apply negb_true_iff in Hnb. rewrite Hnb in Hopt.
  now apply line_roundtrip.
Qed.

Lemma C2_roundtrip_witness :
  options_tab_separated Sample.hosts_file = true /\
  no_blank_line Sample.hosts_file = true /\
  lf_terminated Sample.hosts_file = true /\
  result (__str__ (__init__ Sample.hosts_file)) = inr Sample.hosts_file.
Proof.
  do 3 (split; [reflexivity|]).
  apply (C2_roundtrip Sample.hosts_file); reflexivity.
Defined.

(** *** Deleting entries *)

(** C8.  [del_entries ip] removes exactly the option lines whose first
    field is [ip] and the option lines without a field; the Blank and
    AllComment records are all kept, in their order, and the lines that
    remain are in the order they had. *)
Theorem C8_del_entries_frame (self : t) (ip : str) :
  exists c',
    del_entries ip self = (inr tt, mk (_text self) (Some c')) /\
    c' = filter (fun e => negb (entry_of_ip ip e || no_field e))
                (lines_of self) /\
    (forall e, In e c' <->
               In e (lines_of self) /\
               entry_of_ip ip e = false /\ no_field e = false) /\
    filter (fun e => negb (is_option e)) c'
    = filter (fun e => negb (is_option e)) (lines_of self) /\
    subseq c' (lines_of self).
Proof.
  eexists. split; [apply del_entries_run|]. split; [reflexivity|].
  split; [|split].
  - intros e. rewrite filter_In, negb_true_iff, orb_false_iff. tauto.
  - rewrite filter_filter_comm. apply filter_all.
    intros e He. apply filter_In in He as [_ He].
    now destruct e as [| |[|p pieces] tail].
  - apply subseq_filter.
Qed.

(** C9.  Every Option record that parsing a hosts text produces has at
    least one field, so on a freshly parsed document [del_entries] drops
    the entries of [ip] and nothing else: its test for an empty field
    list never fires. *)
Theorem C9_parsed_options_have_fields (text : str) :
  Forall (fun e => match e with
                   | Option pieces _ => pieces <> []
                   | _ => True
                   end) (_parse text) /\
  forall ip,
    del_entries ip (__init__ text) =
    (inr tt,
     mk text (Some (filter (fun e => negb (entry_of_ip ip e))
                           (_parse text)))).
Proof.
  assert (H : Forall (fun e => no_field e = false) (_parse text)).
  { rewrite _parse_map. apply Forall_forall. intros e Hin.
    apply in_map_iff in Hin as [line [<- _]]. apply entry_of_line_field. }
  split.
  - eapply Forall_impl; [|exact H].
    intros [| |[|p pieces] tail]; simpl; intros; (exact I || congruence).
  - intros ip. rewrite del_entries_run.
    unfold lines_of, __init__. cbn [_contents _text]. do 3 f_equal.
    rewrite Forall_forall in H. apply filter_ext_in.
    intros e Hin. now rewrite (H e Hin), orb_false_r.
Qed.

End HostsConfSpec.

(* ================================================================== *)
(** ** util.uniq_list *)
(* ================================================================== *)

Module UtilFacts.

Import PyFacts util.

(** One pass of the loop of [uniq_list]. *)
Local Abbreviation step :=
  (fun out_list i => if contains i out_list then out_list else out_list ++ [i]).

Lemma uniq_fold_In (l out : list str) (x : str) :
  In x (fold_left step l out) <-> In x out \/ In x l.
Proof.
  revert out. induction l as [|i l IH]; intros out; simpl; [tauto|].
  rewrite IH. destruct (contains i out) eqn:E.
  - apply contains_In in E. intuition (subst; auto).
  - rewrite in_app_iff. simpl. intuition.
Qed.

Lemma uniq_fold_NoDup (l out : list str) :
  NoDup out -> NoDup (fold_left step l out).
Proof.
  revert out. induction l as [|i l IH]; intros out H; simpl; [exact H|].
  apply IH. destruct (contains i out) eqn:E; [exact H|].
  apply contains_not_In in E.
  apply NoDup_app; [exact H|repeat constructor; simpl; tauto|].
  intros x Hx [<-|[]]. contradiction.
Qed.

Lemma uniq_fold_id (l out : list str) :
  NoDup (out ++ l) -> fold_left step l out = out ++ l.
Proof.
  revert out. induction l as [|i l IH]; intros out H; simpl.
  - now rewrite app_nil_r.
  - assert (E : contains i out = false).
    { apply contains_not_In. intros Hin.
      apply NoDup_remove_2 in H. apply H, in_or_app. now left. }
    rewrite E, IH; rewrite <- app_assoc; [reflexivity|exact H].
Qed.

Lemma uniq_list_In (l : list str) (x : str) : In x (uniq_list l) <-> In x l.
Proof. unfold uniq_list. rewrite uniq_fold_In. simpl. tauto. Qed.

Lemma uniq_list_NoDup (l : list str) : NoDup (uniq_list l).
Proof. apply uniq_fold_NoDup. constructor. Qed.

Lemma uniq_list_id (l : list str) : NoDup l -> uniq_list l = l.
Proof. intros H. now apply (uniq_fold_id l []). Qed.

Lemma uniq_list_snoc (l : list str) (x : str) :
  uniq_list (l ++ [x]) =
  if contains x (uniq_list l) then uniq_list l else uniq_list l ++ [x].
Proof. unfold uniq_list. now rewrite fold_left_app. Qed.

Lemma uniq_list_snoc_new (l : list str) (x : str) :
  ~ In x l -> uniq_list (l ++ [x]) = uniq_list l ++ [x].
Proof.
  intros H. rewrite uniq_list_snoc.
  rewrite <- uniq_list_In in H. apply contains_not_In in H. now rewrite H.
Qed.


End UtilFacts.

(* ================================================================== *)
(** ** ResolvConf: parse errors and the add operations *)
(* ================================================================== *)

Module ResolvConfSpec.

Import PyFacts LoopFacts UtilFacts util ResolvConf.

(** *** How the methods run *)

Lemma resolv_parse_run (self : t) :
  parse self =
  match lines_of self with
  | inr c => (inr tt, mk (_text self) (Some c))
  | inl e => (inl e, self)
  end.
Proof.
  destruct self as [text [c|]]; [reflexivity|].
  unfold parse, lines_of, bind, get. cbn [_contents _text].
  now destruct (_parse text).
Qed.

(** A method that starts with [self.parse()]. *)
Lemma with_parse {A} (k : M t A) (self : t) :
  (parse ;; k) self =
  match lines_of self with
  | inr c => k (mk (_text self) (Some c))
  | inl e => (inl e, self)
  end.
Proof.
  unfold bind. rewrite resolv_parse_run. now destruct (lines_of self).
Qed.

Lemma lines_of_parsed (text : str) (c : list entry) :
  lines_of (mk text (Some c)) = inr c.
Proof. reflexivity. Qed.

Lemma retr_run (opt_name text : str) (c : list entry) :
  _retr_option opt_name (mk text (Some c)) =
  (inr (option_values opt_name c), mk text (Some c)).
Proof.
  unfold _retr_option, bind, contents, get, ret. cbn. do 2 f_equal.
  unfold option_values. rewrite flat_map_concat_map.
  rewrite <- (app_nil_l (concat _)), <- fold_app_concat.
  apply fold_ext. intros acc [line|line|o v tl]; rewrite ?app_nil_r;
    try reflexivity.
  destruct (str_eqb o opt_name); now rewrite ?app_nil_r.
Qed.

Lemma remove_opt_is (opt_name : str) (e : entry) :
  remove_opt opt_name e = is_option_of opt_name e.
Proof.
  destruct e as [line|line|o v tl]; simpl; try reflexivity.
  now destruct (str_eqb o opt_name).
Qed.

Lemma remove_run (opt_name text : str) (c : list entry) :
  _remove_option opt_name (mk text (Some c)) =
  (inr tt, mk text (Some (without opt_name c))).
Proof.
  unfold _remove_option, bind, contents, set_contents, get, put, ret. cbn.
  do 3 f_equal. unfold without.
  rewrite <- (app_nil_l (filter _ _)), <- fold_snoc_filter.
  apply fold_ext. intros acc e. now rewrite remove_opt_is.
Qed.

Lemma append_run (e : entry) (text : str) (c : list entry) :
  append e (mk text (Some c)) = (inr tt, mk text (Some (c ++ [e]))).
Proof. reflexivity. Qed.

Lemma append_all_run (f : str -> entry) (l : list str) (text : str)
      (c : list entry) :
  for_each l (fun n => append (f n)) (mk text (Some c)) =
  (inr tt, mk text (Some (c ++ map f l))).
Proof.
  revert c. induction l as [|n l IH]; intros c; simpl.
  - now rewrite app_nil_r.
  - unfold bind. rewrite append_run, IH, <- app_assoc. reflexivity.
Qed.

Lemma search_domains_parsed (text : str) (c : list entry) :
  search_domains (mk text (Some c)) =
  (inr (flat_domains c), mk text (Some c)).
Proof.
  unfold search_domains. rewrite with_parse, lines_of_parsed.
  unfold bind. rewrite retr_run. unfold ret, flat_domains. cbn [_text].
  do 2 f_equal.
  rewrite <- (app_nil_l (concat _)), <- fold_app_concat.
  apply fold_ext. intros acc sdlist.
  rewrite (fold_ext _ (fun flat sd =>
             if negb (length sd =? 0) then flat ++ [sd] else flat)).
  - rewrite fold_snoc_filter. f_equal. apply filter_all.
    intros w Hw. pose proof (split_words sdlist) as H.
    rewrite Forall_forall in H. specialize (H w Hw).
    unfold is_word in H. now apply andb_true_iff in H.
  - now intros flat [|x sd].
Qed.

Lemma nameservers_parsed (text : str) (c : list entry) :
  nameservers (mk text (Some c)) =
  (inr (option_values (lit "nameserver") c), mk text (Some c)).
Proof.
  unfold nameservers. now rewrite with_parse, lines_of_parsed, retr_run.
Qed.

Lemma str_parsed (text : str) (c : list entry) :
  __str__ (mk text (Some c)) =
  (inr (concat (map write_entry c)), mk text (Some c)).
Proof.
  unfold __str__. rewrite with_parse, lines_of_parsed.
  unfold bind, contents, get, ret. cbn. now rewrite fold_app_concat.
Qed.

(** [add_nameserver] on a parsed document. *)
Lemma add_nameserver_parsed (ns text : str) (c : list entry) :
  add_nameserver ns (mk text (Some c)) =
  let current_ns := option_values (lit "nameserver") c in
  let new_ns := uniq_list (current_ns ++ [ns]) in
  if length new_ns =? length current_ns
  then (inr current_ns, mk text (Some c))
  else if 3 <=? length current_ns
  then (inl (ValueError
               (lit "Adding " ++ repr ns ++
                lit " would go beyond the '3' maximum name servers")),
        mk text (Some c))
  else (inr new_ns,
        mk text (Some (without (lit "nameserver") c
                       ++ map nameserver_line new_ns))).
Proof.
  unfold add_nameserver. rewrite with_parse, lines_of_parsed.
  unfold bind at 1. rewrite retr_run. cbn [_text]. cbv zeta.
  destruct (_ =? _); [reflexivity|].
  destruct (3 <=? _); [reflexivity|].
  unfold bind. rewrite remove_run.
  now rewrite (append_all_run nameserver_line).
Qed.

(** [add_search_domain] on a parsed document. *)
Lemma add_search_domain_parsed (d text : str) (c : list entry) :
  add_search_domain d (mk text (Some c)) =
  let flat_sds := flat_domains c in
  let new_sds := uniq_list (flat_sds ++ [d]) in
  if length flat_sds =? length new_sds
  then (inr new_sds, mk text (Some c))
  else if 6 <=? length flat_sds
  then (inl (ValueError
               (lit "Adding " ++ repr d ++
                lit " would go beyond the '6' maximum search domains")),
        mk text (Some c))
  else if 256 <? length (join (lit " ") new_sds)
  then (inl (ValueError
               (lit "Adding " ++ repr d ++
                lit " would go beyond the 256 maximum search list character limit")),
        mk text (Some c))
  else (inr flat_sds,
        mk text (Some (without (lit "search") c ++ [search_line new_sds]))).
Proof.
  unfold add_search_domain. unfold bind at 1.
  rewrite search_domains_parsed. cbv zeta.
  destruct (_ =? _); [reflexivity|].
  destruct (6 <=? _); [reflexivity|].
  destruct (256 <? _); [reflexivity|].
  unfold bind. now rewrite remove_run, append_run.
Qed.

(** A method that starts by parsing raises the parse error, and leaves
    the object as it was, when the text does not parse. *)
Lemma unparsed_fails {A} (k : M t A) (text : str) (e : exn) :
  _parse text = inl e ->
  (parse ;; k) (__init__ text) = (inl e, __init__ text).
Proof.
  intros H. rewrite with_parse. unfold lines_of, __init__.
  cbn [_contents _text]. now rewrite H.
Qed.

(** A method that starts by parsing runs on the parsed document. *)
Lemma add_nameserver_lines (ns : str) (self : t) (c : list entry) :
  lines_of self = inr c ->
  add_nameserver ns self = add_nameserver ns (mk (_text self) (Some c)).
Proof.
  intros H. unfold add_nameserver.
  now rewrite !with_parse, H, lines_of_parsed.
Qed.

Lemma search_domains_lines (self : t) (c : list entry) :
  lines_of self = inr c ->
  search_domains self = search_domains (mk (_text self) (Some c)).
Proof.
  intros H. unfold search_domains.
  now rewrite !with_parse, H, lines_of_parsed.
Qed.

Lemma add_search_domain_lines (d : str) (self : t) (c : list entry) :
  lines_of self = inr c ->
  add_search_domain d self = add_search_domain d (mk (_text self) (Some c)).
Proof.
  intros H. unfold add_search_domain, bind.
  now rewrite (search_domains_lines _ _ H), search_domains_parsed.
Qed.

(** What a query that returned tells about the document. *)
Lemma nameservers_inv (self : t) (cur : list str) :
  result (nameservers self) = inr cur ->
  exists c, lines_of self = inr c /\
            cur = option_values (lit "nameserver") c.
Proof.
  unfold nameservers. rewrite with_parse.
  destruct (lines_of self) as [e|c]; [discriminate|].
  rewrite retr_run. intros [= <-]. now exists c.
Qed.

Lemma search_domains_inv (self : t) (flat : list str) :
  result (search_domains self) = inr flat ->
  exists c, lines_of self = inr c /\ flat = flat_domains c.
Proof.
  destruct (lines_of self) as [e|c] eqn:E.
  - unfold search_domains. rewrite with_parse, E. discriminate.
  - rewrite (search_domains_lines _ _ E), search_domains_parsed.
    intros [= <-]. now exists c.
Qed.

(** *** Reading options back *)

Lemma option_values_app (opt_name : str) (a b : list entry) :
  option_values opt_name (a ++ b)
  = option_values opt_name a ++ option_values opt_name b.
Proof. apply flat_map_app. Qed.

Lemma option_values_without (opt_name : str) (c : list entry) :
  option_values opt_name (without opt_name c) = [].
Proof.
  induction c as [|e c IH]; [reflexivity|].
  destruct e as [line|line|o v tl]; simpl; try exact IH.
  destruct (str_eqb o opt_name) eqn:E; simpl; [exact IH|].
  now rewrite E.
Qed.

Lemma option_values_nameserver_lines (l : list str) :
  option_values (lit "nameserver") (map nameserver_line l) = l.
Proof.
  induction l as [|n l IH]; [reflexivity|].
  cbn [map option_values flat_map nameserver_line].
  fold (option_values (lit "nameserver") (map nameserver_line l)).
  now rewrite str_eqb_refl, IH.
Qed.

Lemma flat_domains_rebuilt (c : list entry) (ws : list str) :
  Forall (fun w => is_word w = true) ws ->
  flat_domains (without (lit "search") c ++ [search_line ws]) = ws.
Proof.
  intros H. unfold flat_domains.
  rewrite option_values_app, option_values_without.
  cbn. rewrite app_nil_r. now apply (split_join SP).
Qed.

Lemma flat_domains_words (c : list entry) :
  Forall (fun w => is_word w = true) (flat_domains c).
Proof.
  unfold flat_domains. apply Forall_concat, Forall_map, Forall_forall.
  intros sdlist _. apply split_words.
Qed.

(** *** Parse errors *)

Lemma keyword_blank (line : str) : strip line = [] -> keyword line = None.
Proof.
  intros H. apply strip_nil in H. unfold keyword, head_of.
  destruct (_chop_comment line (lit ";#")) as [head tail] eqn:E.
  apply chop_app in E. subst line. rewrite forallb_app in H.
  apply andb_true_iff in H as [H _]. cbn [fst].
  unfold split. now rewrite (proj2 (split_aux_nil head) H).
Qed.

Lemma keyword_comment (line : str) :
  strip (head_of line) = [] -> keyword line = None.
Proof.
  intros H. apply strip_nil in H. unfold keyword, split.
  now rewrite (proj2 (split_aux_nil _) H).
Qed.

Lemma keyword_some (line : str) :
  strip (head_of line) <> [] -> exists kw, keyword line = Some kw.
Proof.
  intros H. unfold keyword, split.
  destruct (split_aux [] (head_of line)) as [|kw l] eqn:E.
  - apply split_aux_nil, strip_nil in E. contradiction.
  - now exists kw.
Qed.

(** One pass of the loop of [_parse]: the line is taken and is not an
    unexpected one, or the loop ends there with one of the two reports. *)
Lemma parse_loop_step (i : nat) (line : str) (lines : list str)
      (entries : list entry) :
  (unexpected_line line = false /\
   exists e, _parse_loop i (line :: lines) entries
             = _parse_loop (S i) lines (entries ++ [e])) \/
  (exists kw,
      keyword line = Some kw /\
      ((split1 (head_of line) = [kw] /\
        _parse_loop i (line :: lines) entries
        = inl (incorrectly_formatted (i + 1))) \/
       ((exists v, split1 (head_of line) = [kw; v]) /\
        contains kw directives = false /\
        _parse_loop i (line :: lines) entries
        = inl (unexpected_option kw)))).
Proof.
  cbn [_parse_loop]. unfold unexpected_line.
  destruct (strip line) as [|c r] eqn:Es.
  { left. rewrite (keyword_blank _ Es). split; [reflexivity|]. now eexists. }
  pose proof (keyword_comment line) as Hcom.
  pose proof (keyword_some line) as Hkw.
  unfold keyword in *. unfold head_of in *.
  destruct (_chop_comment line (lit ";#")) as [head tail]. cbn [fst] in *.
  destruct (strip head) as [|c' r'] eqn:Eh.
  { left. rewrite (Hcom eq_refl). split; [reflexivity|]. now eexists. }
  cbn [length Nat.eqb]. destruct Hkw as [kw Hkw]; [discriminate|].
  rewrite Hkw.
  destruct (split1_shape _ _ Hkw) as [E|[v E]]; rewrite E.
  - right. exists kw. split; [reflexivity|]. now left.
  - destruct (contains kw directives) eqn:Ed.
    + left. split; [reflexivity|]. now eexists.
    + right. exists kw. split; [reflexivity|]. right.
      split; [now exists v|now split].
Qed.

(** With an unexpected line among them, the loop ends with a report, at
    that line or before it. *)
Lemma parse_loop_fails (lines : list str) :
  forall (k : nat) (entries : list entry) (i : nat) (line : str),
    nth_error lines i = Some line ->
    unexpected_line line = true ->
    exists j bad kw,
      j <= i /\ nth_error lines j = Some bad /\ keyword bad = Some kw /\
      ((split1 (head_of bad) = [kw] /\
        _parse_loop k lines entries
        = inl (incorrectly_formatted (k + j + 1))) \/
       ((exists v, split1 (head_of bad) = [kw; v]) /\
        contains kw directives = false /\
        _parse_loop k lines entries = inl (unexpected_option kw))).
Proof.
  induction lines as [|l0 lines IH]; intros k entries i line Hi Hun.
  - now destruct i.
  - destruct (parse_loop_step k l0 lines entries)
      as [[Hok [e He]]|[kw [Hkw Hend]]].
    + destruct i as [|i]; [injection Hi as ->; congruence|].
      destruct (IH (S k) (entries ++ [e]) i line Hi Hun)
        as [j [bad [kw [Hj [Hbad [Hkw Hend]]]]]].
      exists (S j), bad, kw. rewrite He.
      replace (k + S j + 1) with (S k + j + 1) by lia.
      repeat split; [lia|exact Hbad|exact Hkw|exact Hend].
    + exists 0, l0, kw. rewrite Nat.add_0_r.
      repeat split; [lia|exact Hkw|exact Hend].
Qed.

(** C3, as stated, fails on the report: the error for a keyword that is
    not a directive names the keyword and carries no line number. *)
Lemma C3_counterexample :
  nth_error (splitlines Sample.resolv_unexpected) 0 = Some (lit "foo bar") /\
  unexpected_line (lit "foo bar") = true /\
  exists e,
    result (parse (__init__ Sample.resolv_unexpected)) = inl e /\
    message e = lit "Unexpected resolv.conf option foo" /\
    substring_of (str_of_nat 1) (message e) = false.
Proof.
  split; [reflexivity|]. split; [reflexivity|].
  eexists. split; [reflexivity|]. split; reflexivity.
Qed.

(** A keyword that is not a directive and stands alone is reported as
    an incorrectly formatted line, with the line number. *)
Example parse_keyword_alone :
  result (parse (__init__ (lit "foo"))) = inl (incorrectly_formatted 1).
Proof. reflexivity. Qed.

(** C3 (amended).  When a line of a resolver text is neither blank nor a
    comment and has a keyword outside the directives, parsing fails with
    an [IOError] raised at that line or at an earlier line not blank nor
    a comment.  The report depends on the line at which parsing stops:
    when it has a keyword and no value the report carries its 1-based
    number, whatever the keyword; when it has a keyword and a value, the
    keyword is not a directive and the report names the keyword, without
    a line number.  Nothing is cached: the document stays unparsed, and
    the nameserver and search-domain queries raise the same error. *)
Theorem C3_unexpected_directive (text : str) (i : nat) (line : str) :
  nth_error (splitlines text) i = Some line ->
  unexpected_line line = true ->
  exists e j bad kw,
    FormatError e /\
    j <= i /\ nth_error (splitlines text) j = Some bad /\
    keyword bad = Some kw /\
    ((split1 (head_of bad) = [kw] /\ e = incorrectly_formatted (j + 1)) \/
     ((exists v, split1 (head_of bad) = [kw; v]) /\
      contains kw directives = false /\ e = unexpected_option kw)) /\
    parse (__init__ text) = (inl e, __init__ text) /\
    nameservers (__init__ text) = (inl e, __init__ text) /\
    search_domains (__init__ text) = (inl e, __init__ text).
Proof.
  intros Hi Hun.
  destruct (parse_loop_fails _ 0 [] i line Hi Hun)
    as [j [bad [kw [Hj [Hbad [Hkw Hend]]]]]].
  assert (Hfail : forall e, _parse text = inl e ->
            parse (__init__ text) = (inl e, __init__ text) /\
            nameservers (__init__ text) = (inl e, __init__ text) /\
            search_domains (__init__ text) = (inl e, __init__ text)).
  { intros e He. split; [|split].
    - rewrite resolv_parse_run. unfold lines_of, __init__.
      cbn [_contents _text]. now rewrite He.
    - now apply unparsed_fails.
    - now apply unparsed_fails. }
  fold (_parse text) in Hend. cbn [Nat.add] in Hend.
  destruct Hend as [[Hshape He]|[Hshape [Hdir He]]].
  - exists (incorrectly_formatted (j + 1)), j, bad, kw.
    repeat split; try assumption; try apply (Hfail _ He).
    now left.
  - exists (unexpected_option kw), j, bad, kw.
    repeat split; try assumption; try apply (Hfail _ He).
    right. now repeat split.
Qed.

Lemma C3_unexpected_directive_witness :
  exists e j bad kw,
    FormatError e /\
    j <= 0 /\ nth_error (splitlines Sample.resolv_unexpected) j = Some bad /\
    keyword bad = Some kw /\
    ((split1 (head_of bad) = [kw] /\ e = incorrectly_formatted (j + 1)) \/
     ((exists v, split1 (head_of bad) = [kw; v]) /\
      contains kw directives = false /\ e = unexpected_option kw)) /\
    parse (__init__ Sample.resolv_unexpected)
    = (inl e, __init__ Sample.resolv_unexpected) /\
    nameservers (__init__ Sample.resolv_unexpected)
    = (inl e, __init__ Sample.resolv_unexpected) /\
    search_domains (__init__ Sample.resolv_unexpected)
    = (inl e, __init__ Sample.resolv_unexpected).
Proof.
  apply (C3_unexpected_directive Sample.resolv_unexpected 0 (lit "foo bar"));
    reflexivity.
Defined.

(** *** add_nameserver *)

(** With three distinct nameservers and a new one, [add_nameserver]
    raises the limit error and the lines stay as they were. *)
Lemma add_nameserver_limit (self : t) (c : list entry) (ns : str) :
  lines_of self = inr c ->
  NoDup (option_values (lit "nameserver") c) ->
  3 <= length (option_values (lit "nameserver") c) ->
  ~ In ns (option_values (lit "nameserver") c) ->
  exists e, LimitExceeded e /\
            add_nameserver ns self = (inl e, mk (_text self) (Some c)).
Proof.
  intros Hc Hnd Hlen Hnew.
  rewrite (add_nameserver_lines _ _ _ Hc), add_nameserver_parsed. cbv zeta.
  rewrite (uniq_list_snoc_new _ _ Hnew), (uniq_list_id _ Hnd).
  rewrite length_app. cbn [length].
  destruct (Nat.eqb_spec (length (option_values (lit "nameserver") c) + 1)
                         (length (option_values (lit "nameserver") c)));
    [lia|].
  destruct (Nat.leb_spec 3 (length (option_values (lit "nameserver") c)));
    [|lia].
  eexists. split; [|reflexivity]. exact I.
Qed.

(** C4 (the code departs from the claim).  With three nameserver values
    none of which is [ns], [add_nameserver ns] should raise the limit
    error.  The test for a value already present compares the length of the
    deduplicated list with the length of the current one, so when the
    three values hold a duplicate the call returns the current list, adds
    nothing and raises nothing. *)
Theorem C4_limit_missed_on_duplicates :
  result (nameservers (__init__ Sample.resolv_dup_ns))
  = inr [lit "1.1.1.1"; lit "1.1.1.1"; lit "2.2.2.2"] /\
  ~ In (lit "3.3.3.3") [lit "1.1.1.1"; lit "1.1.1.1"; lit "2.2.2.2"] /\
  result (add_nameserver (lit "3.3.3.3") (__init__ Sample.resolv_dup_ns))
  = inr [lit "1.1.1.1"; lit "1.1.1.1"; lit "2.2.2.2"].
Proof.
  split; [reflexivity|]. split; [|reflexivity].
  intros H. simpl in H. decompose [or] H; discriminate || contradiction.
Qed.



(** C10, as stated, fails when the nameserver is already listed and the
    list holds no duplicate: the call succeeds and the document keeps its
    nameserver line where it was, comment included. *)
Lemma C10_counterexample :
  exists l self',
    add_nameserver (lit "1.1.1.1") (__init__ Sample.resolv_commented_ns)
    = (inr l, self') /\
    ~ exists rest values,
        _contents self' = Some (rest ++ map nameserver_line values) /\
        forallb (fun e => negb (is_option_of (lit "nameserver") e)) rest
        = true.
Proof.
  eexists. eexists. split; [reflexivity|].
  intros [rest [values [H1 H2]]]. cbn in H1. injection H1 as H1.
  destruct rest as [|e rest].
  - destruct values as [|v values]; discriminate.
  - simpl in H1. injection H1 as <- _. discriminate.
Qed.

(** A nameserver that is already listed, in a list that holds it twice:
    the lengths differ, and the lines are rebuilt. *)
Example add_nameserver_listed_twice :
  add_nameserver (lit "1.1.1.1")
    (__init__ (Sample.resolv_commented_ns ++ lit "nameserver 1.1.1.1"))
  = (inr [lit "1.1.1.1"],
     mk (Sample.resolv_commented_ns ++ lit "nameserver 1.1.1.1")
        (Some [Option (lit "domain") (lit "example.org") [];
               nameserver_line (lit "1.1.1.1")])).
Proof. reflexivity. Qed.

Lemma uniq_list_snoc_cases (cur : list str) (ns : str) :
  uniq_list (cur ++ [ns])
  = if contains ns cur then uniq_list cur else uniq_list cur ++ [ns].
Proof.
  rewrite uniq_list_snoc.
  destruct (contains ns cur) eqn:E.
  - apply (proj1 (contains_In _ _)) in E.
    apply (proj2 (uniq_list_In _ _)), (proj2 (contains_In _ _)) in E.
    now rewrite E.
  - destruct (contains ns (uniq_list cur)) eqn:E'; [|reflexivity].
    apply (proj1 (contains_In _ _)) in E'.
    apply (proj1 (uniq_list_In _ _)), (proj2 (contains_In _ _)) in E'.
    congruence.
Qed.

(** C10 (amended).  When [add_nameserver ns] returns and the deduplicated
    list of the current nameservers and [ns] differs in length from the
    current list, all nameserver lines have been rebuilt at the end of
    the line list, one for each value of the deduplicated list and with an
    empty comment tail, so that the comments of the old nameserver lines
    are gone; the other lines keep their order before them; the values
    are the current ones without duplicates, each at its first place,
    followed by [ns] when it was not among them; that list is returned,
    and it is what the nameservers query returns afterwards. *)
Theorem C10_add_nameserver_rebuilds
        (self self' : t) (ns : str) (cur l : list str) :
  result (nameservers self) = inr cur ->
  length (uniq_list (cur ++ [ns])) <> length cur ->
  add_nameserver ns self = (inr l, self') ->
  exists c,
    lines_of self = inr c /\
    l = uniq_list (cur ++ [ns]) /\
    l = (if contains ns cur then uniq_list cur else uniq_list cur ++ [ns]) /\
    NoDup l /\
    self' = mk (_text self)
               (Some (without (lit "nameserver") c ++ map nameserver_line l)) /\
    result (nameservers self') = inr l.
Proof.
  intros Hq Hguard Hrun.
  destruct (nameservers_inv _ _ Hq) as [c [Hc Hcur]].
  exists c. split; [exact Hc|].
  rewrite (add_nameserver_lines _ _ _ Hc), add_nameserver_parsed in Hrun.
  cbv zeta in Hrun. rewrite <- Hcur in Hrun.
  apply Nat.eqb_neq in Hguard. rewrite Hguard in Hrun.
  destruct (3 <=? length cur); [discriminate|].
  assert (Hl : l = uniq_list (cur ++ [ns])) by congruence.
  assert (Hs : self' = mk (_text self)
                          (Some (without (lit "nameserver") c
                                 ++ map nameserver_line l))) by congruence.
  clear Hrun. split; [exact Hl|]. split; [|split; [|split]].
  - rewrite Hl. apply uniq_list_snoc_cases.
  - rewrite Hl. apply uniq_list_NoDup.
  - exact Hs.
  - rewrite Hs, nameservers_parsed, option_values_app, option_values_without,
      option_values_nameserver_lines. reflexivity.
Qed.

Lemma C10_add_nameserver_rebuilds_witness :
  exists c,
    lines_of (__init__ Sample.resolv_file) = inr c /\
    [lit "1.1.1.1 "; lit "8.8.8.8"; lit "9.9.9.9"]
    = uniq_list ([lit "1.1.1.1 "; lit "8.8.8.8"] ++ [lit "9.9.9.9"]) /\
    [lit "1.1.1.1 "; lit "8.8.8.8"; lit "9.9.9.9"]
    = (if contains (lit "9.9.9.9") [lit "1.1.1.1 "; lit "8.8.8.8"]
       then uniq_list [lit "1.1.1.1 "; lit "8.8.8.8"]
       else uniq_list [lit "1.1.1.1 "; lit "8.8.8.8"] ++ [lit "9.9.9.9"]) /\
    NoDup [lit "1.1.1.1 "; lit "8.8.8.8"; lit "9.9.9.9"] /\
    after (add_nameserver (lit "9.9.9.9") (__init__ Sample.resolv_file))
    = mk (_text (__init__ Sample.resolv_file))
         (Some (without (lit "nameserver") c
                ++ map nameserver_line
                     [lit "1.1.1.1 "; lit "8.8.8.8"; lit "9.9.9.9"])) /\
    result (nameservers
              (after (add_nameserver (lit "9.9.9.9")
                                     (__init__ Sample.resolv_file))))
    = inr [lit "1.1.1.1 "; lit "8.8.8.8"; lit "9.9.9.9"].
Proof.
  apply (C10_add_nameserver_rebuilds
           (__init__ Sample.resolv_file) _ (lit "9.9.9.9")
           [lit "1.1.1.1 "; lit "8.8.8.8"]).
  - reflexivity.
  - vm_compute. discriminate.
  - reflexivity.
Defined.

(** *** add_search_domain *)

(** With a list of distinct search domains and a new domain that makes
    the joined list longer than 256 characters, [add_search_domain] raises
    a limit error and the lines stay as they were. *)
Lemma add_search_domain_limit (self : t) (c : list entry) (d : str) :
  lines_of self = inr c ->
  NoDup (flat_domains c) ->
  ~ In d (flat_domains c) ->
  256 < length (join (lit " ") (flat_domains c ++ [d])) ->
  exists e, LimitExceeded e /\
            add_search_domain d self = (inl e, mk (_text self) (Some c)).
Proof.
  intros Hc Hnd Hnew Hlen.
  rewrite (add_search_domain_lines _ _ _ Hc), add_search_domain_parsed.
  cbv zeta.
  rewrite (uniq_list_snoc_new _ _ Hnew), (uniq_list_id _ Hnd).
  rewrite length_app. cbn [length].
  destruct (Nat.eqb_spec (length (flat_domains c))
                         (length (flat_domains c) + 1)); [lia|].
  destruct (6 <=? length (flat_domains c)).
  - eexists. split; [|reflexivity]. exact I.
  - apply Nat.ltb_lt in Hlen. rewrite Hlen.
    eexists. split; [|reflexivity]. exact I.
Qed.

(** C5 (the code departs from the claim).  When adding [d] would make
    the joined search list longer than 256 characters,
    [add_search_domain d] should raise the limit error.  The test for a
    domain already present compares the lengths of the list and of its
    deduplicated extension, so with a duplicate among the current domains
    the call returns before the limits are looked at: here the joined
    list would have 260 characters, and the call returns the new list
    without raising and without writing it. *)
Theorem C5_limit_missed_on_duplicates :
  result (search_domains (__init__ Sample.resolv_dup_search))
  = inr [lit "lan"; lit "lan"] /\
  Sample.long_domain <> lit "lan" /\
  length (join (lit " ")
               (uniq_list ([lit "lan"; lit "lan"] ++ [Sample.long_domain])))
  = 260 /\
  result (add_search_domain Sample.long_domain
                            (__init__ Sample.resolv_dup_search))
  = inr [lit "lan"; Sample.long_domain] /\
  result (search_domains
            (after (add_search_domain Sample.long_domain
                                      (__init__ Sample.resolv_dup_search))))
  = inr [lit "lan"; lit "lan"].
Proof.
  split; [reflexivity|]. split; [discriminate|].
  split; [now vm_compute|]. split; now vm_compute.
Qed.

(** C6, as stated, fails when the current list holds a domain more
    than once: the line that is written carries the deduplicated list,
    and that list is what [search_domains] returns afterwards. *)
Lemma C6_counterexample :
  result (search_domains (__init__ Sample.resolv_triple_search))
  = inr [lit "lan"; lit "lan"; lit "lan"] /\
  ~ In (lit "corp") [lit "lan"; lit "lan"; lit "lan"] /\
  result (add_search_domain (lit "corp")
                            (__init__ Sample.resolv_triple_search))
  = inr [lit "lan"; lit "lan"; lit "lan"] /\
  result (search_domains
            (after (add_search_domain (lit "corp")
                      (__init__ Sample.resolv_triple_search))))
  <> inr ([lit "lan"; lit "lan"; lit "lan"] ++ [lit "corp"]).
Proof.
  split; [reflexivity|]. split.
  { intros H. simpl in H. decompose [or] H; discriminate || contradiction. }
  split; [reflexivity|]. vm_compute. discriminate.
Qed.

(** A domain with a blank in it is read back as two domains. *)
Example add_search_domain_two_words :
  result (search_domains
            (after (add_search_domain (lit "a b")
                      (__init__ Sample.resolv_file))))
  = inr [lit "lan"; lit "a"; lit "b"].
Proof. reflexivity. Qed.

(** C6 (amended).  Let [d] be a word (not empty, no whitespace) that is
    not in the flattened search list, and let the deduplicated list of the
    current domains and [d] differ in length from the current list.  When
    [add_search_domain d] returns, it returns the flattened list as it
    was before the call; every search line is gone and one search line
    with an empty comment tail stands at the end, whose value is the
    deduplicated list joined by blanks with [d] last; afterwards
    [search_domains] returns the deduplicated old list followed by [d]. *)
Theorem C6_add_search_domain
        (self self' : t) (d : str) (flat r : list str) :
  result (search_domains self) = inr flat ->
  ~ In d flat ->
  is_word d = true ->
  length (uniq_list (flat ++ [d])) <> length flat ->
  add_search_domain d self = (inr r, self') ->
  exists c,
    lines_of self = inr c /\
    r = flat /\
    self' = mk (_text self)
               (Some (without (lit "search") c
                      ++ [Option (lit "search")
                                 (join (lit " ") (uniq_list flat ++ [d]))
                                 []])) /\
    result (search_domains self') = inr (uniq_list flat ++ [d]).
Proof.
  intros Hq Hnew Hd Hguard Hrun.
  destruct (search_domains_inv _ _ Hq) as [c [Hc ->]].
  exists c. split; [exact Hc|].
  rewrite (add_search_domain_lines _ _ _ Hc), add_search_domain_parsed in Hrun.
  cbv zeta in Hrun.
  apply not_eq_sym, Nat.eqb_neq in Hguard. rewrite Hguard in Hrun.
  destruct (6 <=? _); [discriminate|].
  destruct (256 <? _); [discriminate|].
  injection Hrun as <- <-.
  rewrite (uniq_list_snoc_new _ _ Hnew). repeat split.
  rewrite search_domains_parsed. unfold result. cbn [fst]. f_equal.
  apply flat_domains_rebuilt, Forall_app. split.
  - apply Forall_forall. intros w Hw.
    apply (proj1 (uniq_list_In _ _)) in Hw.
    pose proof (flat_domains_words c) as H. rewrite Forall_forall in H.
    now apply H.
  - now repeat constructor.
Qed.

Lemma C6_add_search_domain_witness :
  exists c,
    lines_of (__init__ Sample.resolv_file) = inr c /\
    [lit "lan"] = [lit "lan"] /\
    after (add_search_domain (lit "corp") (__init__ Sample.resolv_file))
    = mk (_text (__init__ Sample.resolv_file))
         (Some (without (lit "search") c
                ++ [Option (lit "search")
                           (join (lit " ")
                                 (uniq_list [lit "lan"] ++ [lit "corp"]))
                           []])) /\
    result (search_domains
              (after (add_search_domain (lit "corp")
                                        (__init__ Sample.resolv_file))))
    = inr (uniq_list [lit "lan"] ++ [lit "corp"]).
Proof.
  apply (C6_add_search_domain (__init__ Sample.resolv_file) _ (lit "corp")
                              [lit "lan"] [lit "lan"]).
  - reflexivity.
  - intros H. simpl in H. decompose [or] H; discriminate || contradiction.
  - reflexivity.
  - vm_compute. discriminate.
  - reflexivity.
Defined.

End ResolvConfSpec.

(* ================================================================== *)
(** ** HostsConf: looking up, adding and deleting entries *)
(* ================================================================== *)

Module HostsConfEntries.

Import PyFacts LoopFacts HostsConf HostsConfSpec.

Lemma get_entry_run (self : t) (ip : str) :
  get_entry ip self =
  (inr (names_of ip (lines_of self)),
   mk (_text self) (Some (lines_of self))).
Proof.
  unfold get_entry, bind. rewrite hosts_parse_run. cbn. unfold ret.
  do 2 f_equal. unfold names_of. rewrite flat_map_concat_map.
  rewrite <- (app_nil_l (concat _)), <- fold_app_concat.
  apply fold_ext. intros acc [line|line|[|p names] tail];
    rewrite ?app_nil_r; try reflexivity.
  simpl. destruct (str_eqb p ip); now rewrite ?app_nil_r.
Qed.

Lemma add_entry_run (self : t) (ip host : str) (aliases : list str) :
  add_entry ip host aliases self =
  (inr tt,
   mk (_text self) (Some (lines_of self ++ [new_entry ip host aliases]))).
Proof.
  unfold add_entry, bind. now rewrite hosts_parse_run.
Qed.

Lemma names_of_app (ip : str) (a b : list entry) :
  names_of ip (a ++ b) = names_of ip a ++ names_of ip b.
Proof. apply flat_map_app. Qed.

Lemma names_of_cons (ip : str) (e : entry) (c : list entry) :
  names_of ip (e :: c) = names_of ip [e] ++ names_of ip c.
Proof. apply (names_of_app ip [e] c). Qed.

Lemma names_of_filter (ip ip' : str) (c : list entry) :
  names_of ip' (filter (fun e => negb (entry_of_ip ip e || no_field e)) c)
  = if str_eqb ip' ip then [] else names_of ip' c.
Proof.
  induction c as [|e c IH].
  - now destruct (str_eqb ip' ip).
  - cbn [filter]. rewrite (names_of_cons ip' e c).
    destruct (negb (entry_of_ip ip e || no_field e)) eqn:K.
    + rewrite names_of_cons, IH.
      destruct (str_eqb ip' ip) eqn:E; [|reflexivity].
      apply str_eqb_eq in E. subst ip'.
      destruct e as [line|line|[|p names] tail]; try reflexivity.
      cbn in *. rewrite orb_false_r in K. apply negb_true_iff in K.
      now rewrite K.
    + rewrite IH. destruct (str_eqb ip' ip) eqn:E; [reflexivity|].
      destruct e as [line|line|[|p names] tail]; try discriminate;
        try reflexivity.
      cbn in *. rewrite orb_false_r in K. apply negb_false_iff in K.
      apply str_eqb_eq in K. subst p.
      destruct (str_eqb ip ip') eqn:E3; [|reflexivity].
      apply str_eqb_eq in E3. subst ip'. now rewrite str_eqb_refl in E.
Qed.

(** Looking up after [add_entry]: the new hostnames come last in the
    answer for the address added, and the answer for any other address is
    what it was. *)
Theorem get_entry_after_add_entry
        (self : t) (ip host : str) (aliases : list str) (ip' : str) :
  exists names,
    result (get_entry ip' self) = inr names /\
    result (get_entry ip' (after (add_entry ip host aliases self)))
    = inr (names ++ if str_eqb ip ip' then [host :: aliases] else []).
Proof.
  exists (names_of ip' (lines_of self)). split.
  - now rewrite get_entry_run.
  - rewrite add_entry_run, get_entry_run. unfold after, result, lines_of.
    cbn [fst snd _contents]. rewrite names_of_app. cbn.
    destruct (str_eqb ip ip'); reflexivity.
Qed.

(** Looking up after [del_entries]: nothing is left for the address
    deleted, and the answer for any other address is what it was. *)
Theorem get_entry_after_del_entries (self : t) (ip ip' : str) :
  exists names,
    result (get_entry ip' self) = inr names /\
    result (get_entry ip' (after (del_entries ip self)))
    = inr (if str_eqb ip' ip then [] else names).
Proof.
  exists (names_of ip' (lines_of self)). split.
  - now rewrite get_entry_run.
  - rewrite del_entries_run, get_entry_run. unfold after, result, lines_of.
    cbn [fst snd _contents]. now rewrite names_of_filter.
Qed.

Lemma filter_twice {A} (f : A -> bool) (l : list A) :
  filter f (filter f l) = filter f l.
Proof.
  apply filter_all. intros x Hx. now apply filter_In in Hx.
Qed.

(** Deleting the entries of an address a second time changes nothing,
    and deletions of two addresses can be done in either order. *)
Theorem del_entries_twice_and_swap (self : t) (ip ip' : str) :
  del_entries ip (after (del_entries ip self)) = del_entries ip self /\
  del_entries ip' (after (del_entries ip self))
  = del_entries ip (after (del_entries ip' self)).
Proof.
  rewrite !del_entries_run. unfold after, lines_of.
  cbn [snd _contents _text]. split.
  - now rewrite filter_twice.
  - now rewrite filter_filter_comm.
Qed.

(** Deleting an address just added undoes the addition (and deletes what
    the document had for that address). *)
Theorem del_entries_after_add_entry
        (self : t) (ip host : str) (aliases : list str) :
  del_entries ip (after (add_entry ip host aliases self))
  = del_entries ip self.
Proof.
  rewrite add_entry_run, !del_entries_run. unfold after, lines_of.
  cbn [snd _contents _text]. rewrite filter_app. cbn.
  now rewrite str_eqb_refl, app_nil_r.
Qed.

Lemma names_of_nil (ip : str) (c : list entry) (e : entry) :
  names_of ip c = [] -> In e c -> entry_of_ip ip e = false.
Proof.
  induction c as [|x c IH]; intros H Hin; [destruct Hin|].
  destruct Hin as [->|Hin].
  - rewrite names_of_cons in H. apply app_eq_nil in H as [H _].
    destruct e as [l|l|[|p names] tail]; try reflexivity.
    cbn in *. destruct (str_eqb p ip); [discriminate|reflexivity].
  - rewrite names_of_cons in H. apply app_eq_nil in H as [_ H]. auto.
Qed.

(** On a freshly parsed text, deleting an address that [get_entry] does
    not find leaves every line as parsed. *)
Theorem del_entries_absent (text ip : str) :
  result (get_entry ip (__init__ text)) = inr [] ->
  del_entries ip (__init__ text) = parse (__init__ text).
Proof.
  rewrite get_entry_run, del_entries_run, hosts_parse_run.
  unfold result, lines_of, __init__. cbn [fst _contents _text].
  intros [= H]. do 3 f_equal. apply filter_all.
  intros e He. rewrite (names_of_nil _ _ _ H He).
  rewrite _parse_map in He. apply in_map_iff in He as [line [<- _]].
  now rewrite entry_of_line_field.
Qed.

Lemma del_entries_absent_witness :
  result (get_entry (lit "192.168.0.1") (__init__ Sample.hosts_file))
  = inr [] /\
  del_entries (lit "192.168.0.1") (__init__ Sample.hosts_file)
  = parse (__init__ Sample.hosts_file).
Proof.
  split; [reflexivity|].
  apply (del_entries_absent Sample.hosts_file (lit "192.168.0.1")).
  reflexivity.
Defined.

(** Rendering after [add_entry]: the text rendered before, then the new
    address, hostname and aliases joined by tabs, then a newline. *)
Theorem str_after_add_entry
        (self : t) (ip host : str) (aliases : list str) :
  exists written,
    result (__str__ self) = inr written /\
    result (__str__ (after (add_entry ip host aliases self)))
    = inr (written ++ join [TAB] (ip :: host :: aliases) ++ [LF]).
Proof.
  exists (concat (map write_entry (lines_of self))). split.
  - now rewrite str_run.
  - rewrite add_entry_run, str_run. unfold after, result, lines_of.
    cbn [fst snd _contents]. rewrite map_app, concat_app. cbn [map concat].
    unfold new_entry, write_entry. now rewrite !app_nil_r.
Qed.

Lemma names_of_line (ip line : str) :
  names_of ip [entry_of_line line] =
  match fields_of_line line with
  | p :: names => if str_eqb p ip then [names] else []
  | [] => []
  end.
Proof.
  unfold entry_of_line, fields_of_line.
  destruct (strip line) as [|c r]; [reflexivity|].
  destruct (_chop_comment (c :: r) (lit "#")) as [head tail].
  cbn [fst]. destruct head as [|h head]; [reflexivity|].
  cbn [length Nat.eqb]. unfold names_of. cbn [flat_map].
  destruct (split (h :: head)) as [|p names]; [reflexivity|].
  now rewrite app_nil_r.
Qed.

(** Looking up an address in a text: the answer holds, for each line
    whose first word before the ['#'] is the address, the words that
    follow it before the ['#'], in the order of the lines; blank lines,
    comments and the kind of whitespace between the words play no part. *)
Theorem get_entry_of_text (text ip : str) :
  result (get_entry ip (__init__ text)) =
  inr (flat_map (fun line => match fields_of_line line with
                             | p :: names =>
                                 if str_eqb p ip then [names] else []
                             | [] => []
                             end) (splitlines text)).
Proof.
  rewrite get_entry_run. unfold result, lines_of, __init__.
  cbn [fst _contents _text]. f_equal. rewrite _parse_map.
  induction (splitlines text) as [|line lines IH]; [reflexivity|].
  cbn [map flat_map]. now rewrite names_of_cons, names_of_line, IH.
Qed.

End HostsConfEntries.

(* ================================================================== *)
(** ** The tokenizer, for any set of comment characters *)
(* ================================================================== *)

Module TokenizerSpec.

Import PyFacts.

Lemma find_None (text : str) (c : ascii) :
  find text c = None -> ~ In c text.
Proof.
  induction text as [|x text IH]; simpl; [tauto|].
  destruct (Ascii.eqb_spec x c) as [->|Hx]; [discriminate|].
  destruct (find text c); [discriminate|].
  intros _ [H|H]; [congruence|]. now apply IH.
Qed.

Lemma find_Some (text : str) (c : ascii) (i : nat) :
  find text c = Some i ->
  firstn i text ++ c :: tl (skipn i text) = text /\
  skipn i text = c :: tl (skipn i text) /\
  ~ In c (firstn i text).
Proof.
  revert i. induction text as [|x text IH]; intros i; simpl; [discriminate|].
  destruct (Ascii.eqb_spec x c) as [->|Hx].
  - intros [= <-]. simpl. tauto.
  - destruct (find text c) as [j|]; [|discriminate].
    intros [= <-]. destruct (IH j eq_refl) as [H1 [H2 H3]]. simpl.
    repeat split; [now f_equal|exact H2|]. intros [H|H]; auto.
Qed.

(** A character found in the first [m] characters is found by [find]
    before [m]. *)
Lemma find_in_firstn (text : str) (c : ascii) (m : nat) :
  In c (firstn m text) -> exists i, find text c = Some i /\ i < m.
Proof.
  revert m. induction text as [|x text IH]; intros m H.
  - now rewrite firstn_nil in H.
  - destruct m as [|m]; [destruct H|]. simpl in *.
    destruct (Ascii.eqb_spec x c) as [->|Hx].
    + exists 0. split; [reflexivity|lia].
    + destruct H as [H|H]; [contradiction|].
      destruct (IH m H) as [i [-> Hi]]. exists (S i). split; [reflexivity|lia].
Qed.

Lemma fold_min_init (l : list nat) (a : nat) : fold_left Nat.min l a <= a.
Proof.
  revert a. induction l as [|b l IH]; intros a; simpl; [lia|].
  specialize (IH (Nat.min a b)). lia.
Qed.

Lemma fold_min_le (l : list nat) (a x : nat) :
  In x (a :: l) -> fold_left Nat.min l a <= x.
Proof.
  revert a. induction l as [|b l IH]; intros a H.
  - destruct H as [->|[]]. simpl. lia.
  - cbn [fold_left]. pose proof (fold_min_init l (Nat.min a b)) as Hi.
    destruct H as [->|[->|H]]; [lia|lia|].
    apply IH. now right.
Qed.

Lemma fold_min_in (l : list nat) (a : nat) :
  In (fold_left Nat.min l a) (a :: l).
Proof.
  revert a. induction l as [|b l IH]; intros a; simpl; [now left|].
  destruct (IH (Nat.min a b)) as [H|H]; [|now right; right].
  rewrite <- H. destruct (Nat.min_spec a b) as [[_ ->]|[_ ->]]; auto.
Qed.

(** The places where the comment characters are first found. *)
Lemma location_in (text chars : str) (i : nat) :
  In i (flat_map (fun c => match c with Some i => [i] | None => [] end)
                 (map (find text) chars)) <->
  exists c, In c chars /\ find text c = Some i.
Proof.
  rewrite in_flat_map. split.
  - intros [[j|] [H1 H2]]; [|destruct H2].
    destruct H2 as [->|[]]. apply in_map_iff in H1 as [c [H1 H3]].
    now exists c.
  - intros [c [H1 H2]]. exists (Some i). split; [|now left].
    apply in_map_iff. now exists c.
Qed.

Lemma is_comment_char_In (chars : str) (c : ascii) :
  is_comment_char chars c = true <-> In c chars.
Proof.
  unfold is_comment_char. rewrite existsb_exists. split.
  - intros [x [H1 H2]]. apply Ascii.eqb_eq in H2. now subst.
  - intros H. exists c. split; [exact H|apply Ascii.eqb_refl].
Qed.

Lemma no_comment_char (chars s : str) :
  (forall c, In c chars -> ~ In c s) ->
  existsb (is_comment_char chars) s = false.
Proof.
  intros H. destruct (existsb _ s) eqn:E; [|reflexivity].
  apply existsb_exists in E as [c [H1 H2]].
  apply is_comment_char_In in H2. now destruct (H c H2).
Qed.

(** The first part [_chop_comment] returns holds no comment character;
    the second is empty when the text holds none and starts with one
    otherwise. *)
Lemma chop_head_tail (text comment_chars : str) :
  existsb (is_comment_char comment_chars)
          (fst (_chop_comment text comment_chars)) = false /\
  match snd (_chop_comment text comment_chars) with
  | [] => existsb (is_comment_char comment_chars) text = false
  | c :: _ => is_comment_char comment_chars c = true
  end.
Proof.
  pose proof (location_in text comment_chars) as Hloc.
  unfold _chop_comment.
  destruct (flat_map _ (map (find text) comment_chars)) as [|m0 ms].
  - assert (H : existsb (is_comment_char comment_chars) text = false).
    { apply no_comment_char. intros c Hc.
      destruct (find text c) as [i|] eqn:E; [|now apply find_None].
      destruct (proj2 (Hloc i)). now exists c. }
    now split.
  - cbn [fst snd]. set (m := fold_left Nat.min ms m0).
    destruct (proj1 (Hloc m) (fold_min_in ms m0)) as [c [Hc Hm]].
    destruct (find_Some _ _ _ Hm) as [_ [Hskip _]]. split.
    + apply no_comment_char. intros x Hx Hin.
      destruct (find_in_firstn _ _ _ Hin) as [i [Hi Hlt]].
      assert (Hle : m <= i).
      { apply fold_min_le, Hloc. now exists x. }
      lia.
    + rewrite Hskip. now apply is_comment_char_In.
Qed.

(** The contract of [_chop_comment]: the two parts put together are the
    text; the first part holds no comment character; the second part is
    empty when the text holds no comment character and starts with one
    otherwise. *)
Theorem chop_comment_contract (text comment_chars : str) :
  text = fst (_chop_comment text comment_chars)
         ++ snd (_chop_comment text comment_chars) /\
  existsb (is_comment_char comment_chars)
          (fst (_chop_comment text comment_chars)) = false /\
  match snd (_chop_comment text comment_chars) with
  | [] => existsb (is_comment_char comment_chars) text = false
  | c :: _ => is_comment_char comment_chars c = true
  end.
Proof.
  split.
  - destruct (_chop_comment text comment_chars) as [h t] eqn:E.
    exact (chop_app _ _ _ _ E).
  - apply chop_head_tail.
Qed.

End TokenizerSpec.

(* ================================================================== *)
(** ** More facts about lines, words and joins *)
(* ================================================================== *)

Module LineFacts.

Import PyFacts HostsConf.

Lemma no_linebreak_app (a b : str) :
  no_linebreak (a ++ b) = no_linebreak a && no_linebreak b.
Proof. apply forallb_app. Qed.

(** *** splitlines *)

Lemma splitlines_aux_lines (s cur : str) :
  no_linebreak cur = true ->
  Forall (fun l => no_linebreak l = true) (splitlines_aux cur s).
Proof.
  remember (length s) as n eqn:Hn. revert s cur Hn.
  induction n as [n IH] using lt_wf_ind. intros s cur Hn Hcur.
  destruct s as [|c s]; cbn [splitlines_aux].
  - destruct cur; repeat constructor. exact Hcur.
  - simpl in Hn. destruct (Ascii.eqb c LF) eqn:E1.
    { constructor; [exact Hcur|]. apply (IH (length s)); [lia|reflexivity|reflexivity]. }
    destruct (Ascii.eqb c CR) eqn:E2.
    { destruct s as [|c' s].
      - constructor; [exact Hcur|]. constructor.
      - destruct (Ascii.eqb c' LF).
        + constructor; [exact Hcur|].
          apply (IH (length s)); [simpl in *; lia|reflexivity|reflexivity].
        + constructor; [exact Hcur|].
          apply (IH (length (c' :: s))); [lia|reflexivity|reflexivity]. }
    apply (IH (length s)); [lia|reflexivity|].
    rewrite no_linebreak_app, Hcur. cbn. now rewrite E1, E2.
Qed.

(** The lines of a text hold no line break. *)
Lemma splitlines_lines (text : str) :
  Forall (fun l => no_linebreak l = true) (splitlines text).
Proof. now apply splitlines_aux_lines. Qed.

Lemma splitlines_aux_line (l rest cur : str) :
  no_linebreak l = true ->
  splitlines_aux cur (l ++ LF :: rest)
  = (cur ++ l) :: splitlines_aux [] rest.
Proof.
  revert cur. induction l as [|c l IH]; intros cur H.
  - cbn. now rewrite app_nil_r.
  - cbn in H. apply andb_true_iff in H as [Hc H].
    apply negb_true_iff, orb_false_iff in Hc as [E1 E2].
    cbn [app splitlines_aux]. rewrite E1, E2, (IH _ H), <- app_assoc.
    reflexivity.
Qed.

(** Lines written one after the other, each with its LF, are split back
    into the same lines. *)
Lemma splitlines_concat (ls : list str) :
  Forall (fun l => no_linebreak l = true) ls ->
  splitlines (concat (map (fun l => l ++ [LF]) ls)) = ls.
Proof.
  unfold splitlines. induction 1 as [|l ls Hl _ IH]; [reflexivity|].
  cbn [map concat]. rewrite <- app_assoc. cbn [app].
  now rewrite (splitlines_aux_line _ _ _ Hl), IH.
Qed.

(** *** strip *)

Lemma strip_last (s : str) (x : ascii) (l : str) :
  rev (strip s) = x :: l -> isspace x = false.
Proof.
  unfold strip, rstrip. rewrite rev_involutive. apply lstrip_hd.
Qed.

Lemma strip_part (s : str) :
  exists w1 w2, s = w1 ++ strip s ++ w2.
Proof.
  destruct (lstrip_suffix s) as [w1 [H1 _]].
  destruct (rstrip_prefix (lstrip s)) as [w2 [H2 _]].
  exists w1, w2. unfold strip. now rewrite <- H2.
Qed.

Lemma no_linebreak_strip (s : str) :
  no_linebreak s = true -> no_linebreak (strip s) = true.
Proof.
  destruct (strip_part s) as [w1 [w2 H]]. intros Hs.
  rewrite H, !no_linebreak_app in Hs.
  apply andb_true_iff in Hs as [_ Hs]. now apply andb_true_iff in Hs.
Qed.

(** *** words *)

Lemma no_space_no_linebreak (w : str) :
  no_space w = true -> no_linebreak w = true.
Proof.
  unfold no_space, no_linebreak. rewrite !forallb_forall.
  intros H c Hc. specialize (H c Hc).
  destruct (Ascii.eqb_spec c LF) as [->|]; [discriminate|].
  destruct (Ascii.eqb_spec c CR) as [->|]; [discriminate|reflexivity].
Qed.

Lemma split_aux_chars (s cur w : str) (x : ascii) :
  In w (split_aux cur s) -> In x w -> In x cur \/ In x s.
Proof.
  revert cur. induction s as [|c s IH]; intros cur Hw Hx; simpl in Hw.
  - destruct cur; [destruct Hw|]. destruct Hw as [<-|[]]. now left.
  - destruct (isspace c).
    + destruct cur as [|y cur].
      * destruct (IH _ Hw Hx) as [[]|H]. right. now right.
      * destruct Hw as [<-|Hw]; [now left|].
        destruct (IH _ Hw Hx) as [[]|H]. right. now right.
    + destruct (IH _ Hw Hx) as [H|H]; [|right; now right].
      apply in_app_or in H as [H|[<-|[]]]; [now left|right; now left].
Qed.

Lemma join_chars (sep : str) (ws : list str) (x : ascii) :
  In x (join sep ws) -> In x sep \/ exists w, In w ws /\ In x w.
Proof.
  induction ws as [|w ws IH]; [intros []|].
  destruct ws as [|w' ws].
  - intros H. right. exists w. split; [now left|exact H].
  - change (join sep (w :: w' :: ws)) with (w ++ sep ++ join sep (w' :: ws)).
    intros H. apply in_app_or in H as [H|H].
    + right. exists w. split; [now left|exact H].
    + apply in_app_or in H as [H|H]; [now left|].
      destruct (IH H) as [H'|[w0 [H1 H2]]]; [now left|].
      right. exists w0. split; [now right|exact H2].
Qed.

Lemma no_linebreak_join (c : ascii) (ws : list str) :
  no_linebreak [c] = true ->
  Forall (fun w => no_linebreak w = true) ws ->
  no_linebreak (join [c] ws) = true.
Proof.
  intros Hc. induction 1 as [|w ws Hw Hws IH]; [reflexivity|].
  destruct ws as [|w' ws]; [exact Hw|].
  change (join [c] (w :: w' :: ws)) with (w ++ [c] ++ join [c] (w' :: ws)).
  now rewrite !no_linebreak_app, Hw, Hc, IH.
Qed.

Lemma tab_fields_word (w rest : str) (in_field : bool) :
  is_word w = true ->
  tab_fields in_field (w ++ rest) = tab_fields true rest.
Proof.
  intros H. apply is_word_inv in H as [Hne Hns]. unfold no_space in Hns.
  revert in_field. induction w as [|c w IH]; intros b; [congruence|].
  cbn [forallb] in Hns. apply andb_true_iff in Hns as [Hc Hns].
  apply negb_true_iff in Hc. cbn [app tab_fields].
  destruct (Ascii.eqb_spec c TAB) as [->|_]; [discriminate|].
  rewrite Hc. destruct w as [|c' w]; [reflexivity|].
  apply IH; [discriminate|exact Hns].
Qed.

(** Words joined by tabs are tab-separated fields. *)
Lemma tab_fields_join (ws : list str) :
  ws <> [] -> Forall (fun w => is_word w = true) ws ->
  tab_fields false (join [TAB] ws) = true.
Proof.
  intros Hne H. induction H as [|w ws Hw Hws IH]; [congruence|].
  destruct ws as [|w' ws].
  - cbn [join]. rewrite <- (app_nil_r w). now rewrite tab_fields_word.
  - change (join [TAB] (w :: w' :: ws))
      with (w ++ TAB :: join [TAB] (w' :: ws)).
    rewrite (tab_fields_word _ _ _ Hw). cbn [tab_fields].
    rewrite Ascii.eqb_refl. apply IH. discriminate.
Qed.

(** *** the first ['#'] *)

Lemma before_hash_head (s h t : str) :
  before_hash s = (h, t) -> ~ In "#"%char h.
Proof.
  revert h t. induction s as [|x s IH]; intros h t; simpl.
  - intros [= <- <-] [].
  - destruct (Ascii.eqb_spec x "#") as [->|Hx].
    + intros [= <- <-] [].
    + destruct (before_hash s) as [h' t'].
      intros [= <- <-] [H|H]; [congruence|]. exact (IH h' t' eq_refl H).
Qed.

Lemma before_hash_tail (s h t : str) :
  before_hash s = (h, t) -> t = [] \/ exists t', t = "#"%char :: t'.
Proof.
  revert h t. induction s as [|x s IH]; intros h t; simpl.
  - intros [= <- <-]. now left.
  - destruct (Ascii.eqb_spec x "#") as [->|Hx].
    + intros [= <- <-]. right. now exists s.
    + destruct (before_hash s) as [h' t'].
      intros [= <- <-]. exact (IH h' t' eq_refl).
Qed.

Lemma before_hash_cut (a t : str) :
  ~ In "#"%char a -> (t = [] \/ exists t', t = "#"%char :: t') ->
  before_hash (a ++ t) = (a, t).
Proof.
  intros Ha Ht. induction a as [|x a IH]; cbn [app].
  - destruct Ht as [->|[t' ->]]; [reflexivity|]. cbn.
    reflexivity.
  - cbn [before_hash]. destruct (Ascii.eqb_spec x "#") as [->|Hx].
    + destruct Ha. now left.
    + rewrite IH; [reflexivity|]. intros H. apply Ha. now right.
Qed.

End LineFacts.

(* ================================================================== *)
(** ** HostsConf: a rendered text renders to itself *)
(* ================================================================== *)

Module HostsConfRender.

Import PyFacts LoopFacts LineFacts HostsConf HostsConfSpec.

Lemma write_entry_text (e : entry) : write_entry e = entry_text e ++ [LF].
Proof.
  destruct e as [line|line|pieces tail]; cbn; try reflexivity.
  now rewrite <- app_assoc.
Qed.

(** What is written for a line of a text is a line that is a comment or
    a tab-separated option line. *)
Lemma entry_text_line (l : str) :
  no_linebreak l = true ->
  no_linebreak (entry_text (entry_of_line l)) = true /\
  is_comment (entry_text (entry_of_line l))
  || tab_separated (entry_text (entry_of_line l)) = true.
Proof.
  intros Hl. unfold entry_of_line.
  destruct (strip l) as [|c r] eqn:Es; [now split|].
  pose proof (strip_hd _ _ _ Es) as Hc.
  pose proof (no_linebreak_strip _ Hl) as Hs. rewrite Es in Hs.
  rewrite chop_hash.
  destruct (before_hash (c :: r)) as [head tail] eqn:Eb.
  destruct head as [|h0 head]; cbn [length Nat.eqb entry_text].
  - split; [exact Hl|].
    assert (c = "#"%char) as ->.
    { simpl in Eb. destruct (Ascii.eqb_spec c "#"); [assumption|].
      destruct (before_hash r). discriminate. }
    unfold strip in Es. destruct (rstrip_prefix (lstrip l)) as [w [Hw _]].
    rewrite Es in Hw. unfold is_comment. now rewrite Hw.
  - assert (h0 = c) as ->.
    { simpl in Eb. destruct (Ascii.eqb c "#"); [discriminate|].
      destruct (before_hash r). now injection Eb as <- _. }
    pose proof (before_hash_app _ _ _ Eb) as Happ.
    pose proof (before_hash_head _ _ _ Eb) as Hhead.
    pose proof (before_hash_tail _ _ _ Eb) as Htail.
    pose proof (split_words (c :: head)) as Hwords.
    pose proof (split_hd_nonspace c head Hc) as Hne.
    set (ws := split (c :: head)) in *.
    assert (Hnb : no_linebreak (join [TAB] ws ++ tail) = true).
    { rewrite no_linebreak_app. apply andb_true_iff. split.
      - apply no_linebreak_join; [reflexivity|].
        eapply Forall_impl; [|exact Hwords].
        intros w Hw. apply no_space_no_linebreak.
        now apply is_word_inv in Hw.
      - rewrite Happ, no_linebreak_app in Hs.
        now apply andb_true_iff in Hs. }
    split; [exact Hnb|]. apply orb_true_iff. right.
    unfold tab_separated. rewrite before_hash_cut; [|
      |exact Htail].
    + rewrite (tab_fields_join _ Hne Hwords). cbn [andb].
      apply negb_true_iff. unfold ends_with_space.
      destruct (rev tail) as [|x lt] eqn:Er; [reflexivity|].
      apply (strip_last l x (lt ++ rev (c :: head))).
      now rewrite Es, Happ, rev_app_distr, Er.
    + intros H. apply join_chars in H as [[H|[]]|[w [Hw Hx]]];
        [discriminate|].
      destruct (split_aux_chars _ _ _ _ Hw Hx) as [[]|H]. contradiction.
Qed.

(** Rendering is a normal form: what [__str__] gives for a text is
    rendered, after parsing it again, as the same text. *)
Theorem str_fixed_point (text : str) :
  exists rendered,
    result (__str__ (__init__ text)) = inr rendered /\
    result (__str__ (__init__ rendered)) = inr rendered.
Proof.
  set (f := fun l => entry_text (entry_of_line l)).
  exists (concat (map (fun t => t ++ [LF]) (map f (splitlines text)))).
  split.
  - rewrite str_run. unfold result, lines_of, __init__.
    cbn [fst _contents _text]. rewrite _parse_map, !map_map.
    do 2 f_equal. apply map_ext. intros l. apply write_entry_text.
  - rewrite str_run. unfold result, lines_of, __init__.
    cbn [fst _contents _text]. rewrite _parse_map, map_map.
    pose proof (splitlines_lines text) as Hlines.
    rewrite splitlines_concat.
    + do 2 f_equal. rewrite !map_map. apply map_ext_in. intros l Hin.
      rewrite Forall_forall in Hlines.
      destruct (entry_text_line l (Hlines l Hin)) as [_ H]. fold (f l) in H.
      apply orb_true_iff in H as [H|H].
      * now rewrite (entry_of_comment _ H).
      * now apply entry_of_tab_separated.
    + apply Forall_map. eapply Forall_impl; [|exact Hlines].
      intros l Hl. now apply entry_text_line.
Qed.

End HostsConfRender.

(* ================================================================== *)
(** ** ResolvConf: the queries and the operations that rewrite lines *)
(* ================================================================== *)

Module ResolvConfOps.

Import PyFacts LoopFacts UtilFacts util ResolvConf ResolvConfSpec.

(** *** More about [uniq_list] *)

Lemma uniq_fold_length (l out : list str) :
  length (fold_left
            (fun out_list i => if contains i out_list then out_list
                               else out_list ++ [i]) l out)
  <= length out + length l.
Proof.
  revert out. induction l as [|i l IH]; intros out; simpl; [lia|].
  destruct (contains i out).
  - specialize (IH out). lia.
  - specialize (IH (out ++ [i])). rewrite length_app in IH. simpl in IH. lia.
Qed.

Lemma uniq_list_length (l : list str) : length (uniq_list l) <= length l.
Proof. apply (uniq_fold_length l []). Qed.

Lemma uniq_list_snoc_old (l : list str) (x : str) :
  In x l -> uniq_list (l ++ [x]) = uniq_list l.
Proof.
  intros H. rewrite uniq_list_snoc.
  rewrite <- uniq_list_In in H. apply contains_In in H. now rewrite H.
Qed.

(** *** Lines and the values read from them *)

Lemma without_app (opt_name : str) (a b : list entry) :
  without opt_name (a ++ b) = without opt_name a ++ without opt_name b.
Proof. apply filter_app. Qed.

Lemma without_twice (opt_name : str) (c : list entry) :
  without opt_name (without opt_name c) = without opt_name c.
Proof.
  apply filter_all. intros e He. now apply filter_In in He.
Qed.

Lemma without_nameserver_lines (l : list str) :
  without (lit "nameserver") (map nameserver_line l) = [].
Proof. induction l as [|n l IH]; [reflexivity|exact IH]. Qed.

Lemma option_values_cons (opt_name : str) (e : entry) (c : list entry) :
  option_values opt_name (e :: c)
  = option_values opt_name [e] ++ option_values opt_name c.
Proof. apply (option_values_app opt_name [e] c). Qed.

Lemma option_values_other (opt_name other : str) (c : list entry) :
  opt_name <> other ->
  option_values opt_name (without other c) = option_values opt_name c.
Proof.
  intros Hne. induction c as [|e c IH]; [reflexivity|].
  unfold without in *. cbn [filter]. rewrite (option_values_cons _ e c).
  destruct (negb (is_option_of other e)) eqn:K.
  - now rewrite option_values_cons, IH.
  - rewrite IH. destruct e as [line|line|o v tl]; try discriminate.
    cbn in *. apply negb_false_iff, str_eqb_eq in K. subst o.
    destruct (str_eqb other opt_name) eqn:E; [|reflexivity].
    apply str_eqb_eq in E. congruence.
Qed.

Lemma option_values_lines_other (opt_name : str) (l : list str) :
  opt_name <> lit "nameserver" ->
  option_values opt_name (map nameserver_line l) = [].
Proof.
  intros Hne. induction l as [|n l IH]; [reflexivity|].
  cbn [map]. rewrite option_values_cons, IH, app_nil_r.
  unfold nameserver_line, option_values. cbn [flat_map app].
  destruct (str_eqb (lit "nameserver") opt_name) eqn:E; [|reflexivity].
  apply str_eqb_eq in E. congruence.
Qed.

(** *** How the remaining methods run *)

Lemma local_domain_parsed (text : str) (c : list entry) :
  local_domain (mk text (Some c)) =
  (inr (hd_error (option_values (lit "domain") c)), mk text (Some c)).
Proof.
  unfold local_domain. rewrite with_parse, lines_of_parsed.
  unfold bind. rewrite retr_run. cbn [_text].
  now destruct (option_values (lit "domain") c).
Qed.

Lemma local_domain_lines (self : t) (c : list entry) :
  lines_of self = inr c ->
  local_domain self = local_domain (mk (_text self) (Some c)).
Proof.
  intros H. unfold local_domain.
  now rewrite !with_parse, H, lines_of_parsed.
Qed.

Lemma set_local_domain_parsed (d text : str) (c : list entry) :
  set_local_domain d (mk text (Some c)) =
  (inr d, mk text (Some (without (lit "domain") c ++ [domain_line d]))).
Proof.
  unfold set_local_domain. rewrite with_parse, lines_of_parsed.
  unfold bind. now rewrite remove_run, append_run.
Qed.

Lemma set_local_domain_lines (d : str) (self : t) (c : list entry) :
  lines_of self = inr c ->
  set_local_domain d self = set_local_domain d (mk (_text self) (Some c)).
Proof.
  intros H. unfold set_local_domain.
  now rewrite !with_parse, H, lines_of_parsed.
Qed.

Lemma set_local_domain_unparsed (d : str) (self : t) (e : exn) :
  lines_of self = inl e -> set_local_domain d self = (inl e, self).
Proof.
  intros H. unfold set_local_domain. now rewrite with_parse, H.
Qed.

Lemma nameservers_lines (self : t) (c : list entry) :
  lines_of self = inr c ->
  nameservers self = nameservers (mk (_text self) (Some c)).
Proof.
  intros H. unfold nameservers.
  now rewrite !with_parse, H, lines_of_parsed.
Qed.

Lemma str_lines (self : t) (c : list entry) :
  lines_of self = inr c ->
  __str__ self = __str__ (mk (_text self) (Some c)).
Proof.
  intros H. unfold __str__.
  now rewrite !with_parse, H, lines_of_parsed.
Qed.

(** *** local_domain *)

(** Setting the local domain of a document that parses: every domain
    line is replaced by one line at the end, the query then returns the
    domain set, and the nameservers and search domains are what they
    were. *)
Theorem local_domain_after_set (self : t) (c : list entry) (d : str) :
  lines_of self = inr c ->
  set_local_domain d self
  = (inr d,
     mk (_text self) (Some (without (lit "domain") c ++ [domain_line d]))) /\
  result (local_domain (after (set_local_domain d self))) = inr (Some d) /\
  result (nameservers (after (set_local_domain d self)))
  = result (nameservers self) /\
  result (search_domains (after (set_local_domain d self)))
  = result (search_domains self).
Proof.
  intros Hc.
  rewrite (set_local_domain_lines _ _ _ Hc), set_local_domain_parsed.
  split; [reflexivity|]. unfold after. cbn [snd].
  rewrite local_domain_parsed, nameservers_parsed, search_domains_parsed.
  rewrite (nameservers_lines _ _ Hc), nameservers_parsed.
  rewrite (search_domains_lines _ _ Hc), search_domains_parsed.
  unfold result, flat_domains. cbn [fst].
  rewrite !option_values_app, option_values_without.
  rewrite !option_values_other by discriminate.
  cbn. now rewrite !app_nil_r.
Qed.

Lemma local_domain_after_set_witness :
  set_local_domain (lit "example.org") (__init__ Sample.resolv_file)
  = (inr (lit "example.org"),
     mk (_text (__init__ Sample.resolv_file))
        (Some (without (lit "domain")
                 [AllComment (lit "# resolver");
                  Option (lit "nameserver") (lit "1.1.1.1 ") (lit "# primary");
                  Option (lit "search") (lit "lan") [];
                  Option (lit "nameserver") (lit "8.8.8.8") []]
               ++ [domain_line (lit "example.org")]))) /\
  result (local_domain
            (after (set_local_domain (lit "example.org")
                                     (__init__ Sample.resolv_file))))
  = inr (Some (lit "example.org")) /\
  result (nameservers
            (after (set_local_domain (lit "example.org")
                                     (__init__ Sample.resolv_file))))
  = result (nameservers (__init__ Sample.resolv_file)) /\
  result (search_domains
            (after (set_local_domain (lit "example.org")
                                     (__init__ Sample.resolv_file))))
  = result (search_domains (__init__ Sample.resolv_file)).
Proof.
  apply (local_domain_after_set (__init__ Sample.resolv_file)).
  reflexivity.
Defined.

(** The last local domain set is the one that stays: setting a domain
    and then another leaves the document as setting the second alone. *)
Theorem set_local_domain_last_wins (self : t) (d1 d2 : str) :
  set_local_domain d2 (after (set_local_domain d1 self))
  = set_local_domain d2 self.
Proof.
  destruct (lines_of self) as [e|c] eqn:E.
  - rewrite (set_local_domain_unparsed d1 _ _ E). unfold after. cbn [snd].
    reflexivity.
  - rewrite (set_local_domain_lines d1 _ _ E), set_local_domain_parsed.
    unfold after. cbn [snd].
    rewrite (set_local_domain_lines d2 _ _ E), !set_local_domain_parsed.
    rewrite without_app, without_twice. cbn. now rewrite app_nil_r.
Qed.

(** *** add_nameserver *)

Lemma flat_domains_rebuilt_ns (c : list entry) (l : list str) :
  flat_domains (without (lit "nameserver") c ++ map nameserver_line l)
  = flat_domains c.
Proof.
  unfold flat_domains.
  rewrite option_values_app, option_values_other by discriminate.
  rewrite option_values_lines_other by discriminate.
  now rewrite app_nil_r.
Qed.

Lemma domain_rebuilt_ns (c : list entry) (l : list str) :
  option_values (lit "domain")
                (without (lit "nameserver") c ++ map nameserver_line l)
  = option_values (lit "domain") c.
Proof.
  rewrite option_values_app, option_values_other by discriminate.
  rewrite option_values_lines_other by discriminate.
  now rewrite app_nil_r.
Qed.

(** Whatever [add_nameserver] does to a document that parses, the lines
    that are not nameserver lines are kept, in their order; the search
    domains and the local domain are what they were. *)
Theorem add_nameserver_frame (self : t) (c : list entry) (ns : str) :
  lines_of self = inr c ->
  exists c',
    after (add_nameserver ns self) = mk (_text self) (Some c') /\
    without (lit "nameserver") c' = without (lit "nameserver") c /\
    result (search_domains (after (add_nameserver ns self)))
    = result (search_domains self) /\
    result (local_domain (after (add_nameserver ns self)))
    = result (local_domain self).
Proof.
  intros Hc.
  rewrite (add_nameserver_lines _ _ _ Hc), add_nameserver_parsed.
  rewrite (search_domains_lines _ _ Hc), (local_domain_lines _ _ Hc).
  cbv zeta.
  destruct (_ =? _); [exists c; now repeat split|].
  destruct (3 <=? _); [exists c; now repeat split|].
  eexists. split; [reflexivity|]. unfold after. cbn [snd].
  rewrite !search_domains_parsed, !local_domain_parsed.
  rewrite without_app, without_twice, without_nameserver_lines, app_nil_r.
  rewrite flat_domains_rebuilt_ns, domain_rebuilt_ns. now repeat split.
Qed.

Lemma add_nameserver_frame_witness :
  exists c',
    after (add_nameserver (lit "9.9.9.9") (__init__ Sample.resolv_file))
    = mk (_text (__init__ Sample.resolv_file)) (Some c') /\
    without (lit "nameserver") c'
    = without (lit "nameserver")
        [AllComment (lit "# resolver");
         Option (lit "nameserver") (lit "1.1.1.1 ") (lit "# primary");
         Option (lit "search") (lit "lan") [];
         Option (lit "nameserver") (lit "8.8.8.8") []] /\
    result (search_domains
              (after (add_nameserver (lit "9.9.9.9")
                                     (__init__ Sample.resolv_file))))
    = result (search_domains (__init__ Sample.resolv_file)) /\
    result (local_domain
              (after (add_nameserver (lit "9.9.9.9")
                                     (__init__ Sample.resolv_file))))
    = result (local_domain (__init__ Sample.resolv_file)).
Proof.
  apply (add_nameserver_frame (__init__ Sample.resolv_file)).
  reflexivity.
Defined.

(** When [add_nameserver] returns a list other than the one the query
    gave before, that list has no duplicate and at most three values,
    [ns] is one of them, and it is what the query gives afterwards. *)
Theorem add_nameserver_changed
        (self self' : t) (ns : str) (cur l : list str) :
  result (nameservers self) = inr cur ->
  add_nameserver ns self = (inr l, self') ->
  l <> cur ->
  NoDup l /\ length l <= 3 /\ In ns l /\
  result (nameservers self') = inr l.
Proof.
  intros Hq Hrun Hneq.
  destruct (nameservers_inv _ _ Hq) as [c [Hc Hcur]].
  rewrite (add_nameserver_lines _ _ _ Hc), add_nameserver_parsed in Hrun.
  cbv zeta in Hrun. rewrite <- Hcur in Hrun.
  destruct (_ =? _); [congruence|].
  destruct (Nat.leb_spec 3 (length cur)) as [|Hlt]; [discriminate|].
  assert (Hl : l = uniq_list (cur ++ [ns])) by congruence.
  assert (Hs : self' = mk (_text self)
                          (Some (without (lit "nameserver") c
                                 ++ map nameserver_line l))) by congruence.
  clear Hrun. repeat split.
  - rewrite Hl. apply uniq_list_NoDup.
  - pose proof (uniq_list_length (cur ++ [ns])) as H.
    rewrite length_app in H. simpl in H. rewrite Hl. lia.
  - rewrite Hl. apply uniq_list_In, in_or_app. right. now left.
  - rewrite Hs, nameservers_parsed, option_values_app, option_values_without,
      option_values_nameserver_lines. reflexivity.
Qed.

Lemma add_nameserver_changed_witness :
  NoDup [lit "1.1.1.1 "; lit "8.8.8.8"; lit "9.9.9.9"] /\
  length [lit "1.1.1.1 "; lit "8.8.8.8"; lit "9.9.9.9"] <= 3 /\
  In (lit "9.9.9.9") [lit "1.1.1.1 "; lit "8.8.8.8"; lit "9.9.9.9"] /\
  result (nameservers
            (after (add_nameserver (lit "9.9.9.9")
                                   (__init__ Sample.resolv_file))))
  = inr [lit "1.1.1.1 "; lit "8.8.8.8"; lit "9.9.9.9"].
Proof.
  apply (add_nameserver_changed
           (__init__ Sample.resolv_file) _ (lit "9.9.9.9")
           [lit "1.1.1.1 "; lit "8.8.8.8"]).
  - reflexivity.
  - reflexivity.
  - discriminate.
Defined.

(** Adding a nameserver that a duplicate-free list already has returns
    the list and leaves the lines as they were. *)
Theorem add_nameserver_present (self : t) (ns : str) (cur : list str) :
  result (nameservers self) = inr cur ->
  NoDup cur -> In ns cur ->
  exists c,
    lines_of self = inr c /\
    add_nameserver ns self = (inr cur, mk (_text self) (Some c)).
Proof.
  intros Hq Hnd Hin.
  destruct (nameservers_inv _ _ Hq) as [c [Hc ->]].
  exists c. split; [exact Hc|].
  rewrite (add_nameserver_lines _ _ _ Hc), add_nameserver_parsed.
  cbv zeta. rewrite (uniq_list_snoc_old _ _ Hin), (uniq_list_id _ Hnd).
  now rewrite Nat.eqb_refl.
Qed.

Lemma add_nameserver_present_witness :
  exists c,
    lines_of (__init__ Sample.resolv_three_ns) = inr c /\
    add_nameserver (lit "8.8.8.8") (__init__ Sample.resolv_three_ns)
    = (inr [lit "1.1.1.1"; lit "8.8.8.8"; lit "9.9.9.9"],
       mk (_text (__init__ Sample.resolv_three_ns)) (Some c)).
Proof.
  apply (add_nameserver_present (__init__ Sample.resolv_three_ns)).
  - reflexivity.
  - repeat constructor; simpl; intuition discriminate.
  - simpl. tauto.
Defined.

Lemma write_nameserver_line (n : str) :
  write_entry (nameserver_line n) = lit "nameserver " ++ n ++ [LF].
Proof. reflexivity. Qed.

(** Adding a new nameserver to a duplicate-free list of fewer than three:
    the list with the new value last is returned, and the rendered text
    is the lines that are not nameserver lines followed by one line
    [nameserver <value>] for each value of that list. *)
Theorem add_nameserver_new (self : t) (ns : str) (cur : list str) :
  result (nameservers self) = inr cur ->
  NoDup cur -> ~ In ns cur -> length cur < 3 ->
  exists c,
    lines_of self = inr c /\
    result (add_nameserver ns self) = inr (cur ++ [ns]) /\
    result (__str__ (after (add_nameserver ns self)))
    = inr (concat (map write_entry (without (lit "nameserver") c))
           ++ concat (map (fun n => lit "nameserver " ++ n ++ [LF])
                          (cur ++ [ns]))).
Proof.
  intros Hq Hnd Hnew Hlen.
  destruct (nameservers_inv _ _ Hq) as [c [Hc ->]].
  exists c. split; [exact Hc|].
  rewrite (add_nameserver_lines _ _ _ Hc), add_nameserver_parsed.
  cbv zeta. rewrite (uniq_list_snoc_new _ _ Hnew), (uniq_list_id _ Hnd).
  rewrite length_app. cbn [length].
  destruct (Nat.eqb_spec (length (option_values (lit "nameserver") c) + 1)
                         (length (option_values (lit "nameserver") c)));
    [lia|].
  destruct (Nat.leb_spec 3 (length (option_values (lit "nameserver") c)));
    [lia|].
  split; [reflexivity|]. unfold after. cbn [snd].
  rewrite str_parsed. unfold result. cbn [fst].
  rewrite map_app, concat_app, map_map.
  now rewrite (map_ext _ _ write_nameserver_line).
Qed.

Lemma add_nameserver_new_witness :
  exists c,
    lines_of (__init__ Sample.resolv_file) = inr c /\
    result (add_nameserver (lit "9.9.9.9") (__init__ Sample.resolv_file))
    = inr ([lit "1.1.1.1 "; lit "8.8.8.8"] ++ [lit "9.9.9.9"]) /\
    result (__str__ (after (add_nameserver (lit "9.9.9.9")
                                           (__init__ Sample.resolv_file))))
    = inr (concat (map write_entry (without (lit "nameserver") c))
           ++ concat (map (fun n => lit "nameserver " ++ n ++ [LF])
                          ([lit "1.1.1.1 "; lit "8.8.8.8"]
                           ++ [lit "9.9.9.9"]))).
Proof.
  apply (add_nameserver_new (__init__ Sample.resolv_file)).
  - reflexivity.
  - repeat constructor; simpl; intuition discriminate.
  - simpl. intuition discriminate.
  - simpl. lia.
Defined.

(** With three nameservers, all different, a fourth one is refused. *)
Lemma add_nameserver_limit_witness :
  exists e,
    LimitExceeded e /\
    add_nameserver (lit "4.4.4.4") (__init__ Sample.resolv_three_ns)
    = (inl e,
       mk (_text (__init__ Sample.resolv_three_ns))
          (Some [Option (lit "nameserver") (lit "1.1.1.1") [];
                 Option (lit "nameserver") (lit "8.8.8.8") [];
                 Option (lit "domain") (lit "example.org") [];
                 Option (lit "nameserver") (lit "9.9.9.9") []])).
Proof.
  apply (add_nameserver_limit (__init__ Sample.resolv_three_ns)).
  - reflexivity.
  - repeat constructor; simpl; intuition discriminate.
  - simpl. lia.
  - simpl. intuition discriminate.
Defined.

(** *** search domains *)

(** Every search domain the query returns is a word: not empty and
    without whitespace. *)
Theorem search_domains_words (self : t) :
  match result (search_domains self) with
  | inr flat => forallb is_word flat
  | inl _ => true
  end = true.
Proof.
  destruct (lines_of self) as [e|c] eqn:E.
  - unfold search_domains. now rewrite with_parse, E.
  - rewrite (search_domains_lines _ _ E), search_domains_parsed.
    unfold result. cbn [fst]. apply forallb_forall.
    pose proof (flat_domains_words c) as H. now rewrite Forall_forall in H.
Qed.

Lemma without_search_line (ws : list str) :
  without (lit "search") [search_line ws] = [].
Proof. reflexivity. Qed.

Lemma option_values_search_line (opt_name : str) (ws : list str) :
  opt_name <> lit "search" ->
  option_values opt_name [search_line ws] = [].
Proof.
  intros Hne. unfold search_line, option_values. cbn [flat_map app].
  destruct (str_eqb (lit "search") opt_name) eqn:E; [|reflexivity].
  apply str_eqb_eq in E. congruence.
Qed.

(** Whatever [add_search_domain] does to a document that parses, the
    lines that are not search lines are kept, in their order; the
    nameservers and the local domain are what they were. *)
Theorem add_search_domain_frame (self : t) (c : list entry) (d : str) :
  lines_of self = inr c ->
  exists c',
    after (add_search_domain d self) = mk (_text self) (Some c') /\
    without (lit "search") c' = without (lit "search") c /\
    result (nameservers (after (add_search_domain d self)))
    = result (nameservers self) /\
    result (local_domain (after (add_search_domain d self)))
    = result (local_domain self).
Proof.
  intros Hc.
  rewrite (add_search_domain_lines _ _ _ Hc), add_search_domain_parsed.
  rewrite (nameservers_lines _ _ Hc), (local_domain_lines _ _ Hc).
  cbv zeta.
  destruct (_ =? _); [exists c; now repeat split|].
  destruct (6 <=? _); [exists c; now repeat split|].
  destruct (256 <? _); [exists c; now repeat split|].
  eexists. split; [reflexivity|]. unfold after. cbn [snd].
  rewrite !nameservers_parsed, !local_domain_parsed.
  rewrite without_app, without_twice, without_search_line, app_nil_r.
  rewrite !option_values_app, !option_values_other by discriminate.
  rewrite !option_values_search_line by discriminate.
  rewrite !app_nil_r. now repeat split.
Qed.

Lemma add_search_domain_frame_witness :
  exists c',
    after (add_search_domain (lit "corp") (__init__ Sample.resolv_file))
    = mk (_text (__init__ Sample.resolv_file)) (Some c') /\
    without (lit "search") c'
    = without (lit "search")
        [AllComment (lit "# resolver");
         Option (lit "nameserver") (lit "1.1.1.1 ") (lit "# primary");
         Option (lit "search") (lit "lan") [];
         Option (lit "nameserver") (lit "8.8.8.8") []] /\
    result (nameservers
              (after (add_search_domain (lit "corp")
                                        (__init__ Sample.resolv_file))))
    = result (nameservers (__init__ Sample.resolv_file)) /\
    result (local_domain
              (after (add_search_domain (lit "corp")
                                        (__init__ Sample.resolv_file))))
    = result (local_domain (__init__ Sample.resolv_file)).
Proof.
  apply (add_search_domain_frame (__init__ Sample.resolv_file)).
  reflexivity.
Defined.

(** When [add_search_domain] gets past its test for a domain already
    present and returns, for a domain that is a word, the search list read
    afterwards has no duplicate, at most six domains and at most 256
    characters when joined by blanks, and the domain is in it. *)
Theorem add_search_domain_changed
        (self self' : t) (d : str) (flat r : list str) :
  result (search_domains self) = inr flat ->
  is_word d = true ->
  length (uniq_list (flat ++ [d])) <> length flat ->
  add_search_domain d self = (inr r, self') ->
  exists new_sds,
    result (search_domains self') = inr new_sds /\
    NoDup new_sds /\ length new_sds <= 6 /\
    length (join (lit " ") new_sds) <= 256 /\ In d new_sds.
Proof.
  intros Hq Hd Hguard Hrun.
  destruct (search_domains_inv _ _ Hq) as [c [Hc Hflat]].
  rewrite (add_search_domain_lines _ _ _ Hc), add_search_domain_parsed in Hrun.
  cbv zeta in Hrun. rewrite <- Hflat in Hrun.
  apply not_eq_sym, Nat.eqb_neq in Hguard. rewrite Hguard in Hrun.
  destruct (Nat.leb_spec 6 (length flat)) as [|Hlt]; [discriminate|].
  destruct (Nat.ltb_spec 256 (length (join (lit " ")
                                          (uniq_list (flat ++ [d])))))
    as [|Hle]; [discriminate|].
  assert (Hs : self' = mk (_text self)
                          (Some (without (lit "search") c
                                 ++ [search_line (uniq_list (flat ++ [d]))])))
    by congruence.
  clear Hrun. exists (uniq_list (flat ++ [d])). repeat split.
  - rewrite Hs, search_domains_parsed. unfold result. cbn [fst]. f_equal.
    apply flat_domains_rebuilt, Forall_forall. intros w Hw.
    apply (proj1 (uniq_list_In _ _)), in_app_or in Hw.
    destruct Hw as [Hw|[<-|[]]]; [|exact Hd].
    pose proof (flat_domains_words c) as H. rewrite Forall_forall in H.
    apply H. now rewrite <- Hflat.
  - apply uniq_list_NoDup.
  - pose proof (uniq_list_length (flat ++ [d])) as H.
    rewrite length_app in H. simpl in H. lia.
  - exact Hle.
  - apply uniq_list_In, in_or_app. right. now left.
Qed.

Lemma add_search_domain_changed_witness :
  exists new_sds,
    result (search_domains
              (after (add_search_domain (lit "corp")
                                        (__init__ Sample.resolv_file))))
    = inr new_sds /\
    NoDup new_sds /\ length new_sds <= 6 /\
    length (join (lit " ") new_sds) <= 256 /\ In (lit "corp") new_sds.
Proof.
  apply (add_search_domain_changed
           (__init__ Sample.resolv_file) _ (lit "corp")
           [lit "lan"] [lit "lan"]).
  - reflexivity.
  - reflexivity.
  - vm_compute. discriminate.
  - reflexivity.
Defined.

(** Adding a search domain that a duplicate-free list already has
    returns the list and leaves the lines as they were. *)
Theorem add_search_domain_present (self : t) (d : str) (flat : list str) :
  result (search_domains self) = inr flat ->
  NoDup flat -> In d flat ->
  exists c,
    lines_of self = inr c /\
    add_search_domain d self = (inr flat, mk (_text self) (Some c)).
Proof.
  intros Hq Hnd Hin.
  destruct (search_domains_inv _ _ Hq) as [c [Hc ->]].
  exists c. split; [exact Hc|].
  rewrite (add_search_domain_lines _ _ _ Hc), add_search_domain_parsed.
  cbv zeta. rewrite (uniq_list_snoc_old _ _ Hin), (uniq_list_id _ Hnd).
  now rewrite Nat.eqb_refl.
Qed.

Lemma add_search_domain_present_witness :
  exists c,
    lines_of (__init__ Sample.resolv_six_search) = inr c /\
    add_search_domain (lit "e") (__init__ Sample.resolv_six_search)
    = (inr [lit "a"; lit "b"; lit "c"; lit "d"; lit "e"; lit "f"],
       mk (_text (__init__ Sample.resolv_six_search)) (Some c)).
Proof.
  apply (add_search_domain_present (__init__ Sample.resolv_six_search)).
  - reflexivity.
  - repeat constructor; simpl; intuition discriminate.
  - simpl. tauto.
Defined.

(** With six search domains, all different, or when the new joined list
    would be longer than 256 characters, a new domain is refused with a
    limit error and the lines stay as they were. *)
Theorem add_search_domain_limits (self : t) (d : str) (flat : list str) :
  result (search_domains self) = inr flat ->
  NoDup flat -> ~ In d flat ->
  6 <= length flat \/ 256 < length (join (lit " ") (flat ++ [d])) ->
  exists c e,
    lines_of self = inr c /\ LimitExceeded e /\
    add_search_domain d self = (inl e, mk (_text self) (Some c)).
Proof.
  intros Hq Hnd Hnew Hlimit.
  destruct (search_domains_inv _ _ Hq) as [c [Hc Hflat]].
  exists c.
  rewrite (add_search_domain_lines _ _ _ Hc), add_search_domain_parsed.
  cbv zeta. rewrite <- Hflat.
  rewrite (uniq_list_snoc_new _ _ Hnew), (uniq_list_id _ Hnd).
  rewrite length_app. cbn [length].
  destruct (Nat.eqb_spec (length flat) (length flat + 1)); [lia|].
  destruct (Nat.leb_spec 6 (length flat)) as [H6|H6].
  - eexists. split; [exact Hc|]. split; [|reflexivity]. exact I.
  - destruct Hlimit as [H|H]; [lia|].
    apply Nat.ltb_lt in H. rewrite H.
    eexists. split; [exact Hc|]. split; [|reflexivity]. exact I.
Qed.

Lemma add_search_domain_limits_witness :
  exists c e,
    lines_of (__init__ Sample.resolv_six_search) = inr c /\
    LimitExceeded e /\
    add_search_domain (lit "g") (__init__ Sample.resolv_six_search)
    = (inl e, mk (_text (__init__ Sample.resolv_six_search)) (Some c)).
Proof.
  apply (add_search_domain_limits
           (__init__ Sample.resolv_six_search) (lit "g")
           [lit "a"; lit "b"; lit "c"; lit "d"; lit "e"; lit "f"]).
  - reflexivity.
  - repeat constructor; simpl; intuition discriminate.
  - simpl. intuition discriminate.
  - left. simpl. lia.
Defined.

End ResolvConfOps.

(* ================================================================== *)
(** ** ResolvConf: what parsing accepts and produces *)
(* ================================================================== *)

Module ResolvConfParse.

Import PyFacts LoopFacts LineFacts TokenizerSpec ResolvConf ResolvConfSpec.

(** *** Cutting at the first comment character *)

Lemma cut_unique (P : ascii -> bool) (a t h t' : str) :
  a ++ t = h ++ t' ->
  existsb P a = false -> existsb P h = false ->
  match t with [] => True | c :: _ => P c = true end ->
  match t' with [] => True | c :: _ => P c = true end ->
  a = h /\ t = t'.
Proof.
  revert h. induction a as [|x a IH]; intros h E Ha Hh Ht Ht'.
  - destruct h as [|y h]; [now split|].
    cbn in E. subst t. cbn in Hh. apply orb_false_iff in Hh as [Hy _].
    congruence.
  - destruct h as [|y h].
    + cbn in E. subst t'. cbn in Ha. apply orb_false_iff in Ha as [Hx _].
      congruence.
    + cbn in E. injection E as <- E. cbn in Ha, Hh.
      apply orb_false_iff in Ha as [_ Ha].
      apply orb_false_iff in Hh as [_ Hh].
      destruct (IH h E Ha Hh Ht Ht') as [-> ->]. now split.
Qed.

(** A text made of a part without comment character and a part that is
    empty or starts with one is cut between the two. *)
Lemma chop_cut (a t chars : str) :
  existsb (is_comment_char chars) a = false ->
  match t with [] => True | c :: _ => is_comment_char chars c = true end ->
  _chop_comment (a ++ t) chars = (a, t).
Proof.
  intros Ha Ht.
  destruct (chop_head_tail (a ++ t) chars) as [H2 H3].
  destruct (_chop_comment (a ++ t) chars) as [h t'] eqn:E.
  pose proof (chop_app _ _ _ _ E) as H1.
  cbn [fst snd] in *.
  destruct (cut_unique _ a t h t' H1 Ha H2 Ht) as [-> ->]; [|reflexivity].
  destruct t'; [exact I|exact H3].
Qed.

Lemma comment_char_no_space (c : ascii) :
  is_comment_char (lit ";#") c = true -> isspace c = false.
Proof.
  intros H. apply is_comment_char_In in H.
  destruct H as [<-|[<-|[]]]; reflexivity.
Qed.

Lemma spaces_no_comment_char (w : str) :
  forallb isspace w = true -> existsb (is_comment_char (lit ";#")) w = false.
Proof.
  intros H. destruct (existsb _ w) eqn:E; [|reflexivity].
  apply existsb_exists in E as [c [Hin Hc]].
  rewrite forallb_forall in H. specialize (H c Hin).
  apply comment_char_no_space in Hc. congruence.
Qed.

Lemma lstrip_spaces (w s : str) :
  forallb isspace w = true -> lstrip (w ++ s) = lstrip s.
Proof.
  induction w as [|c w IH]; [reflexivity|]. cbn [forallb]. intros H.
  apply andb_true_iff in H as [Hc H]. cbn [app lstrip]. rewrite Hc. auto.
Qed.

(** *** The two parts of a directive line *)

Lemma split1_aux_app (t rest cur : str) :
  no_space t = true ->
  split1_aux cur (t ++ rest) = split1_aux (cur ++ t) rest.
Proof.
  unfold no_space. revert cur. induction t as [|c t IH]; intros cur Ht.
  - now rewrite app_nil_r.
  - cbn [forallb] in Ht. apply andb_true_iff in Ht as [Hc Ht].
    apply negb_true_iff in Hc. cbn [app split1_aux].
    rewrite Hc, (IH _ Ht), <- app_assoc. reflexivity.
Qed.

Lemma split1_aux_parts (P : ascii -> bool) (s cur : str) :
  forallb P cur = true -> forallb P s = true ->
  Forall (fun w => forallb P w = true) (split1_aux cur s).
Proof.
  revert cur. induction s as [|c s IH]; intros cur Hcur Hs.
  - cbn. destruct cur; repeat constructor. exact Hcur.
  - cbn [forallb] in Hs. apply andb_true_iff in Hs as [Hc Hs].
    cbn [split1_aux]. destruct (isspace c).
    + destruct cur as [|x cur]; [now apply IH|].
      assert (Hl : forallb P (lstrip s) = true).
      { destruct (lstrip_suffix s) as [w [E _]]. rewrite E, forallb_app in Hs.
        now apply andb_true_iff in Hs. }
      destruct (lstrip s); repeat constructor; assumption.
    + apply IH; [|exact Hs]. rewrite forallb_app, Hcur. cbn. now rewrite Hc.
Qed.

Lemma split1_aux_second (s cur a b : str) :
  split1_aux cur s = [a; b] -> exists x b', b = x :: b' /\ isspace x = false.
Proof.
  revert cur. induction s as [|c s IH]; intros cur; cbn [split1_aux].
  - destruct cur; discriminate.
  - destruct (isspace c); [|apply IH].
    destruct cur as [|y cur]; [apply IH|].
    destruct (lstrip s) as [|x b'] eqn:E; [discriminate|].
    intros [= _ <-]. exists x, b'. split; [reflexivity|].
    exact (lstrip_hd _ _ _ E).
Qed.

Lemma directive_word (o : str) :
  contains o directives = true ->
  is_word o = true /\ existsb (is_comment_char (lit ";#")) o = false /\
  no_linebreak o = true.
Proof.
  intros H. apply contains_In in H.
  repeat (destruct H as [<-|H]; [now repeat split|]). destruct H.
Qed.

(** A keyword, a blank and a value are split into the keyword and the
    value. *)
Lemma split1_directive (o v : str) (x : ascii) (v' : str) :
  is_word o = true -> v = x :: v' -> isspace x = false ->
  split1 (o ++ lit " " ++ v) = [o; v].
Proof.
  intros Ho -> Hx. apply is_word_inv in Ho as [Hne Hns].
  unfold split1. rewrite (split1_aux_app _ _ _ Hns). cbn [app].
  change (lit " " ++ x :: v') with (SP :: x :: v').
  destruct o as [|c o]; [congruence|].
  cbn [split1_aux]. change (isspace SP) with true. cbv iota.
  now rewrite (lstrip_id _ _ Hx).
Qed.

(** *** One line *)

Lemma parse_loop_unfold (i : nat) (line : str) (lines : list str)
      (entries : list entry) :
  _parse_loop i (line :: lines) entries =
  match line_entry i line with
  | inr e => _parse_loop (S i) lines (entries ++ [e])
  | inl x => inl x
  end.
Proof.
  cbn [_parse_loop]. unfold line_entry.
  destruct (strip line); [reflexivity|].
  destruct (_chop_comment line (lit ";#")) as [head tail].
  destruct (length (strip head) =? 0); [reflexivity|].
  destruct (split1 head) as [|w1 [|w2 [|w3 ws]]]; try reflexivity.
  now destruct (contains w1 directives).
Qed.

(** The pass over a line succeeds exactly on the accepted lines. *)
Lemma line_entry_accepted (i : nat) (line : str) :
  succeeds (line_entry i line) = accepted_line line.
Proof.
  unfold line_entry, accepted_line.
  destruct (strip line) as [|c r] eqn:Es.
  { now rewrite (keyword_blank _ Es). }
  pose proof (keyword_comment line) as Hcom.
  pose proof (keyword_some line) as Hkw.
  unfold keyword in *. unfold head_of in *.
  destruct (_chop_comment line (lit ";#")) as [head tail]. cbn [fst] in *.
  destruct (strip head) as [|c' r'] eqn:Eh.
  { now rewrite (Hcom eq_refl). }
  cbn [length Nat.eqb]. destruct Hkw as [kw Hkw]; [discriminate|].
  rewrite Hkw.
  destruct (split1_shape _ _ Hkw) as [E|[v E]]; rewrite E; [reflexivity|].
  now destruct (contains kw directives).
Qed.

(** What a successful pass over a line gives. *)
Lemma line_entry_props (i : nat) (line : str) (e : entry) :
  no_linebreak line = true ->
  line_entry i line = inr e ->
  well_formed e = true /\ no_linebreak (entry_text e) = true.
Proof.
  intros Hl. unfold line_entry.
  destruct (strip line) as [|c r] eqn:Es.
  { intros [= <-]. split; [|reflexivity]. now apply strip_nil. }
  destruct (chop_head_tail line (lit ";#")) as [H2 H3].
  destruct (_chop_comment line (lit ";#")) as [head tail] eqn:Echop.
  pose proof (chop_app _ _ _ _ Echop) as H1.
  cbn [fst snd] in *.
  assert (Hparts : no_linebreak head = true /\ no_linebreak tail = true).
  { rewrite H1, no_linebreak_app in Hl. now apply andb_true_iff in Hl. }
  destruct Hparts as [Hh Ht].
  destruct (strip head) as [|c' r'] eqn:Eh; cbn [length Nat.eqb].
  - intros [= <-]. split; [|exact Hl]. cbn [well_formed].
    apply strip_nil in Eh. rewrite H1, (lstrip_spaces _ _ Eh).
    destruct tail as [|x tail].
    + rewrite app_nil_r in H1. subst head.
      apply strip_nil in Eh. congruence.
    + now rewrite (lstrip_id _ _ (comment_char_no_space _ H3)).
  - destruct (split1 head) as [|o [|v [|z l]]] eqn:Esp; try discriminate.
    destruct (contains o directives) eqn:Ed; [|discriminate].
    intros [= <-].
    destruct (split1_aux_second _ _ _ _ Esp) as [x [v' [-> Hx]]].
    pose proof (split1_aux_parts
                  (fun c => negb (is_comment_char (lit ";#") c)) head []
                  eq_refl) as Hcc.
    pose proof (split1_aux_parts
                  (fun c => negb (Ascii.eqb c LF || Ascii.eqb c CR)) head []
                  eq_refl Hh) as Hnl.
    unfold split1 in Esp. rewrite Esp in Hcc, Hnl.
    assert (Hhead : forallb (fun c => negb (is_comment_char (lit ";#") c))
                            head = true).
    { apply forallb_forall. intros y Hy. apply negb_true_iff.
      destruct (is_comment_char (lit ";#") y) eqn:E; [|reflexivity].
      assert (existsb (is_comment_char (lit ";#")) head = true)
        by (apply existsb_exists; now exists y).
      congruence. }
    specialize (Hcc Hhead).
    inversion Hcc as [|? ? _ Hcc2]; subst.
    inversion Hcc2 as [|? ? Hv _]; subst.
    inversion Hnl as [|? ? Ho Hnl2]; subst.
    inversion Hnl2 as [|? ? Hvn _]; subst.
    split.
    + cbn [well_formed]. rewrite Ed, Hx. cbn [negb andb].
      assert (Hv' : existsb (is_comment_char (lit ";#")) (x :: v') = false).
      { destruct (existsb _ (x :: v')) eqn:E; [|reflexivity].
        apply existsb_exists in E as [y [Hy Hyc]].
        rewrite forallb_forall in Hv. specialize (Hv y Hy).
        now rewrite Hyc in Hv. }
      rewrite Hv'. cbn [negb andb]. now destruct tail.
    + cbn [entry_text]. fold (no_linebreak o) in Ho.
      fold (no_linebreak (x :: v')) in Hvn.
      now rewrite !no_linebreak_app, Ho, Hvn, Ht.
Qed.

(** A well-formed entry is read back from its text. *)
Lemma line_entry_text (i : nat) (e : entry) :
  well_formed e = true ->
  exists e', line_entry i (entry_text e) = inr e' /\
             entry_text e' = entry_text e.
Proof.
  destruct e as [line|line|o v tail]; cbn [well_formed entry_text].
  - intros _. now exists (Blank []).
  - intros H. exists (AllComment line). split; [|reflexivity].
    destruct (lstrip line) as [|c r] eqn:El; [discriminate|].
    pose proof (comment_char_no_space _ H) as Hc.
    destruct (lstrip_suffix line) as [w [Hw Hsp]]. rewrite El in Hw.
    unfold line_entry.
    destruct (strip line) as [|y s] eqn:Es.
    { apply strip_nil in Es. rewrite Hw, forallb_app in Es.
      apply andb_true_iff in Es as [_ Es]. cbn [forallb] in Es.
      now rewrite Hc in Es. }
    rewrite Hw at 1. rewrite chop_cut;
      [|now apply spaces_no_comment_char|exact H].
    now rewrite (proj2 (strip_nil w) Hsp).
  - intros H. apply andb_true_iff in H as [H Ht].
    apply andb_true_iff in H as [H Hx].
    apply andb_true_iff in H as [Hd Hv].
    apply negb_true_iff in Hv.
    destruct v as [|x v']; [discriminate|]. apply negb_true_iff in Hx.
    destruct (directive_word _ Hd) as [Ho [Hocc _]].
    exists (Option o (x :: v') tail). split; [|reflexivity].
    pose proof (is_word_inv _ Ho) as [Hne Hns].
    destruct o as [|c o]; [congruence|].
    assert (Hc : isspace c = false).
    { unfold no_space in Hns. cbn [forallb] in Hns.
      apply andb_true_iff in Hns as [Hns _].
      now apply negb_true_iff in Hns. }
    unfold line_entry.
    destruct (strip ((c :: o) ++ lit " " ++ (x :: v') ++ tail)) eqn:Es.
    { apply strip_nil in Es. cbn [app forallb] in Es.
      now rewrite Hc in Es. }
    replace ((c :: o) ++ lit " " ++ (x :: v') ++ tail)
      with (((c :: o) ++ lit " " ++ x :: v') ++ tail)
      by (now rewrite <- !app_assoc).
    rewrite chop_cut.
    + destruct (strip ((c :: o) ++ lit " " ++ x :: v')) eqn:Eh.
      { apply strip_nil in Eh. cbn [app forallb] in Eh.
        now rewrite Hc in Eh. }
      cbn [length Nat.eqb].
      rewrite (split1_directive (c :: o) (x :: v') x v' Ho eq_refl Hx).
      now rewrite Hd.
    + rewrite existsb_app, Hocc.
      change (lit " " ++ x :: v') with ([SP] ++ x :: v').
      now rewrite existsb_app, Hv.
    + unfold starts_with_comment_char in Ht. now destruct tail.
Qed.

(** *** The whole text *)

Lemma parse_loop_accepted (lines : list str) (i : nat)
      (entries : list entry) :
  succeeds (_parse_loop i lines entries) = forallb accepted_line lines.
Proof.
  revert i entries. induction lines as [|line lines IH]; intros i entries.
  - reflexivity.
  - rewrite parse_loop_unfold. cbn [forallb].
    rewrite <- (line_entry_accepted i line).
    destruct (line_entry i line) as [x|e]; [reflexivity|]. apply IH.
Qed.

(** Parsing succeeds exactly on the texts whose lines are all accepted:
    each line blank, a comment, or a directive followed by a value. *)
Theorem parse_succeeds_on_accepted (text : str) :
  succeeds (_parse text) = forallb accepted_line (splitlines text) /\
  succeeds (result (parse (__init__ text)))
  = forallb accepted_line (splitlines text).
Proof.
  assert (H : succeeds (_parse text)
              = forallb accepted_line (splitlines text))
    by apply parse_loop_accepted.
  split; [exact H|]. rewrite <- H, resolv_parse_run.
  unfold lines_of, __init__. cbn [_contents _text].
  now destruct (_parse text).
Qed.

Lemma parse_loop_entries (lines : list str) (i : nat)
      (entries c : list entry) :
  Forall (fun l => no_linebreak l = true) lines ->
  _parse_loop i lines entries = inr c ->
  exists es,
    c = entries ++ es /\ length es = length lines /\
    Forall (fun e => well_formed e = true /\
                     no_linebreak (entry_text e) = true) es.
Proof.
  revert i entries. induction lines as [|line lines IH];
    intros i entries Hl Hrun.
  - injection Hrun as <-. exists []. now rewrite app_nil_r.
  - inversion Hl as [|? ? Hline Hl']; subst.
    rewrite parse_loop_unfold in Hrun.
    destruct (line_entry i line) as [x|e] eqn:E; [discriminate|].
    destruct (IH _ _ Hl' Hrun) as [es [-> [Hlen Hes]]].
    exists (e :: es). rewrite <- app_assoc. repeat split.
    + simpl. now rewrite Hlen.
    + constructor; [|exact Hes]. exact (line_entry_props _ _ _ Hline E).
Qed.

(** A text that parses gives one entry for each of its lines, and every
    entry is well formed: in particular the keyword of every option is one
    of the five directives and its value is not empty. *)
Theorem parse_entries_well_formed (text : str) (c : list entry) :
  _parse text = inr c ->
  length c = length (splitlines text) /\ forallb well_formed c = true.
Proof.
  intros H.
  destruct (parse_loop_entries _ _ _ _ (splitlines_lines text) H)
    as [es [-> [Hlen Hes]]].
  split; [exact Hlen|]. apply forallb_forall. intros e He.
  rewrite Forall_forall in Hes. now apply Hes.
Qed.

Lemma parse_entries_well_formed_witness :
  length [AllComment (lit "# resolver");
          Option (lit "nameserver") (lit "1.1.1.1 ") (lit "# primary");
          Option (lit "search") (lit "lan") [];
          Option (lit "nameserver") (lit "8.8.8.8") []]
  = length (splitlines Sample.resolv_file) /\
  forallb well_formed
          [AllComment (lit "# resolver");
           Option (lit "nameserver") (lit "1.1.1.1 ") (lit "# primary");
           Option (lit "search") (lit "lan") [];
           Option (lit "nameserver") (lit "8.8.8.8") []] = true.
Proof.
  apply (parse_entries_well_formed Sample.resolv_file). reflexivity.
Defined.

Lemma resolv_write_entry_text (e : entry) : write_entry e = entry_text e ++ [LF].
Proof.
  destruct e as [line|line|o v tail]; try reflexivity.
  cbn [write_entry entry_text]. destruct tail as [|x tail].
  - cbn. now rewrite !app_nil_r.
  - cbn [length Nat.eqb negb]. now rewrite <- !app_assoc.
Qed.

Lemma parse_loop_texts (es : list entry) (i : nat) (entries : list entry) :
  Forall (fun e => well_formed e = true) es ->
  exists es',
    _parse_loop i (map entry_text es) entries = inr (entries ++ es') /\
    map entry_text es' = map entry_text es.
Proof.
  revert i entries. induction es as [|e es IH]; intros i entries H.
  - exists []. now rewrite app_nil_r.
  - inversion H as [|? ? He Hes]; subst. cbn [map].
    rewrite parse_loop_unfold.
    destruct (line_entry_text i e He) as [e' [-> Ht]].
    destruct (IH (S i) (entries ++ [e']) Hes) as [es' [-> Hes']].
    exists (e' :: es'). rewrite <- app_assoc. split; [reflexivity|].
    cbn [map]. now rewrite Ht, Hes'.
Qed.

Lemma written_texts (c : list entry) :
  concat (map write_entry c)
  = concat (map (fun t => t ++ [LF]) (map entry_text c)).
Proof.
  rewrite map_map. f_equal. apply map_ext, resolv_write_entry_text.
Qed.

Lemma str_init (text : str) :
  result (__str__ (__init__ text)) =
  match _parse text with
  | inr c => inr (concat (map write_entry c))
  | inl e => inl e
  end.
Proof.
  destruct (_parse text) as [e|c] eqn:E.
  - unfold __str__. now rewrite (unparsed_fails _ _ _ E).
  - rewrite (ResolvConfOps.str_lines (__init__ text) c E).
    now rewrite str_parsed.
Qed.

(** Rendering is a normal form: the text [__str__] gives for a resolver
    text that parses parses again, and is rendered as itself. *)
Theorem resolv_str_fixed_point (text rendered : str) :
  result (__str__ (__init__ text)) = inr rendered ->
  result (__str__ (__init__ rendered)) = inr rendered.
Proof.
  rewrite str_init.
  destruct (_parse text) as [x|c] eqn:E; [discriminate|]. intros [= <-].
  destruct (parse_loop_entries _ _ _ _ (splitlines_lines text) E)
    as [es [-> [_ Hes]]]. cbn [app]. rewrite written_texts.
  assert (Hsplit : splitlines (concat (map (fun t => t ++ [LF])
                                           (map entry_text es)))
                   = map entry_text es).
  { apply splitlines_concat, Forall_map.
    eapply Forall_impl; [|exact Hes]. now intros e [_ H]. }
  assert (Hwf : Forall (fun e => well_formed e = true) es).
  { eapply Forall_impl; [|exact Hes]. now intros e [H _]. }
  destruct (parse_loop_texts es 0 [] Hwf) as [es' [Hrun Htexts]].
  rewrite str_init. unfold _parse. rewrite Hsplit, Hrun. cbn [app].
  now rewrite written_texts, Htexts.
Qed.

Lemma resolv_str_fixed_point_witness :
  result (__str__ (__init__ Sample.resolv_file))
  = inr (lit "# resolver" ++ [LF] ++ lit "nameserver 1.1.1.1 # primary"
         ++ [LF] ++ lit "search lan" ++ [LF] ++ lit "nameserver 8.8.8.8"
         ++ [LF]) /\
  result (__str__ (__init__
                     (lit "# resolver" ++ [LF]
                      ++ lit "nameserver 1.1.1.1 # primary" ++ [LF]
                      ++ lit "search lan" ++ [LF]
                      ++ lit "nameserver 8.8.8.8" ++ [LF])))
  = inr (lit "# resolver" ++ [LF] ++ lit "nameserver 1.1.1.1 # primary"
         ++ [LF] ++ lit "search lan" ++ [LF] ++ lit "nameserver 8.8.8.8"
         ++ [LF]).
Proof.
  split; [reflexivity|].
  apply (resolv_str_fixed_point Sample.resolv_file). reflexivity.
Defined.

End ResolvConfParse.
